(** * hub/executor: the configuration-application engine

    A shallow embedding of [src/hub/executor/executor.go].  The Go file
    pushes one parsed configuration into the process-wide state of the
    other packages (resolver, dns, listener, dialer, tproxy, ...).  Those
    packages are collaborators: a variable the executor assigns directly
    is a slot of the [World] record, a call into a collaborator is an
    [Event] appended to the world's call trace (together with the slot it
    is known to set, for the setter/getter pairs [GetGeneral] reads back).
    Sequential code runs in a small state monad whose second outcome is
    [os.Exit]; the three provider phases, which start goroutines, are a
    step relation over the WaitGroup counter, the buffered channel and the
    goroutines' program points. *)

From Stdlib Require Import ZArith.
From stdpp Require Import base option list strings gmap.

Open Scope Z_scope.

(** ** Package [constant/provider] *)

Module provider.

(** [provider.ProviderType]. *)
Inductive ProviderType := Proxy | Rule.

(** Modelled from the spec: the vehicle-kind constants of
    [constant/provider] are not under src/; the spec gives every provider
    exactly one vehicle kind, managed or compatible, and the executor only
    ever compares against [provider.Compatible]. *)
Inductive VehicleType := Managed | Compatible.

#[global] Instance VehicleType_eq_dec : EqDecision VehicleType.
Proof. solve_decision. Defined.

(** The [provider.Provider] interface: [Name()], [Type()],
    [VehicleType()], [Initial() error].  [Initial] is the error the call
    returns, [None] for Go's nil. *)
Record Provider := mkProvider {
  Name : string;
  Type_ : ProviderType;
  Vehicle : VehicleType;
  Initial : option string
}.

End provider.

(** ** Packages [constant], [adapter] and [outboundgroup]: proxies *)

Module adapter.

(** What [outbound.ProxyAdapter] holds.  A selector-capable group
    ([outboundgroup.SelectAble]) is a pointer to the group object, whose
    active selection lives in the world's store; every other adapter is of
    no interest here. *)
Inductive ProxyAdapter :=
  | SelectAble (group : positive)
  | Plain.

(** The interface [C.Proxy]: an [*adapter.Proxy] wrapping its adapter, or
    some other implementation. *)
Inductive Proxy :=
  | AdapterProxy (a : ProxyAdapter)
  | OtherProxy.

End adapter.

(** ** The configuration snapshot (package [config], fields the executor reads) *)

Module config.

(** [LC.Tun]: only the fields read here. *)
Record Tun := mkTun {
  Tun_Enable : bool;
  RedirectToTun : list string
}.

Record EBpf := mkEBpf {
  AutoRedir : list string
}.

(** [config.General] with its embedded [config.Inbound]. Ports are Go
    [int]s; the listener specs are opaque strings. *)
Record General := mkGeneral {
  Port : Z;
  SocksPort : Z;
  RedirPort : Z;
  TProxyPort : Z;
  MixedPort : Z;
  Tun_ : Tun;
  TuicServer : string;
  ShadowSocksConfig : string;
  VmessConfig : string;
  SkipAuthPrefixes : list string;
  AllowLan : bool;
  BindAddress : string;
  InboundTfo : bool;
  InboundMPTCP : bool;
  Mode : string;
  FindProcessMode : string;
  UnifiedDelay : bool;
  IPv6 : bool;
  Interface : string;
  RoutingMark : Z;
  GeodataLoader : string;
  TCPConcurrent : bool;
  EBpf_ : EBpf
}.

Record FallbackFilter := mkFallbackFilter {
  GeoIP : bool;
  GeoIPCode : string;
  IPCIDR : list string;
  Domain : list string;
  GeoSite : list string
}.

(** [config.DNS]. Name servers, hosts and policies are opaque strings. *)
Record DNS := mkDNS {
  Enable : bool;
  DNS_IPv6 : bool;
  IPv6Timeout : Z;
  NameServer : list string;
  Fallback : list string;
  FallbackFilter_ : FallbackFilter;
  Listen : string;
  EnhancedMode : string;
  DefaultNameserver : list string;
  CacheAlgorithm : string;
  FakeIPRange : string;
  Hosts : list (string * string);
  NameServerPolicy : list (string * string);
  ProxyServerNameserver : list string
}.

Record IPTables := mkIPTables {
  IPT_Enable : bool;
  InboundInterface : string;
  Bypass : list string
}.

Record Profile := mkProfile {
  StoreSelected : bool
}.

(** [config.Config], the sections used below.  A Go map that the executor
    ranges over is the list of its entries (distinct keys) in the order the
    range visits them, which Go leaves unspecified. *)
Record Config := mkConfig {
  General_ : General;
  DNS_ : DNS;
  IPTables_ : IPTables;
  Profile_ : Profile;
  Proxies : list (string * adapter.Proxy);
  Providers : list (string * provider.Provider);
  RuleProviders : list (string * provider.Provider)
}.

End config.


(** ** Package [dns]: what [updateDNS] builds *)

Module dns.

(** [dns.FallbackFilter] and [dns.Config], the literal [updateDNS] fills. *)
Record FallbackFilter := mkFallbackFilter {
  GeoIP : bool;
  GeoIPCode : string;
  IPCIDR : list string;
  Domain : list string;
  GeoSite : list string
}.

Record Config := mkConfig {
  Main : list string;
  Fallback : list string;
  IPv6 : bool;
  IPv6Timeout : Z;
  EnhancedMode : string;
  Pool : string;
  Hosts : list (string * string);
  FallbackFilter_ : FallbackFilter;
  Default : list string;
  Policy : list (string * string);
  ProxyServer : list string;
  RuleProviders : list (string * provider.Provider);
  CacheAlgorithm : string
}.

(** Modelled from the spec: [dns.Resolver] and [dns.NewResolver] are not
    under src/.  The resolver is built from the configuration; [main] is
    the list of name servers it asks. *)
Record Resolver := mkResolver {
  main : list string;
  config_of : Config
}.

Definition NewResolver (cfg : Config) : Resolver :=
  {| main := Main cfg; config_of := cfg |}.

(** Modelled from the spec: [dns.NewProxyServerHostResolver] is not under
    src/; it is the secondary "proxy-server-name resolver built from the
    same resolver", asking the proxy-server name servers. *)
Definition NewProxyServerHostResolver (old : Resolver) : Resolver :=
  {| main := ProxyServer (config_of old); config_of := config_of old |}.

(** Modelled from the spec: the method [Invalid] of [dns.Resolver] is not
    under src/.  By the spec it is the resolver's own report that it is
    valid, "i.e., proxy-server-driven resolution is actually configured":
    it answers [true] exactly when the resolver has a name server to ask
    (the method's name notwithstanding). *)
Definition Invalid (r : Resolver) : bool :=
  match main r with
  | [] => false
  | _ :: _ => true
  end.

(** Modelled from the spec: [dns.ResolverEnhancer], [dns.NewEnhancer] and
    [PatchFrom] are not under src/.  The enhancer carries the accumulated
    mapping cache (host name to assigned address); a new enhancer starts
    with an empty cache, and [PatchFrom] copies the cache of the old
    enhancer into the receiver. *)
Record ResolverEnhancer := mkEnhancer {
  mode : string;
  mapping : gmap string string
}.

Definition NewEnhancer (cfg : Config) : ResolverEnhancer :=
  {| mode := EnhancedMode cfg; mapping := ∅ |}.

Definition PatchFrom (h o : ResolverEnhancer) : ResolverEnhancer :=
  {| mode := mode h; mapping := mapping o ∪ mapping h |}.

(** [dns.NewLocalServer(r, m)] wraps the resolver and the enhancer. *)
Record LocalServer := mkLocalServer {
  ls_resolver : Resolver;
  ls_mapper : ResolverEnhancer
}.

Definition NewLocalServer (r : Resolver) (m : ResolverEnhancer) : LocalServer :=
  {| ls_resolver := r; ls_mapper := m |}.

End dns.

(** ** Calls into collaborators

    One constructor per function of another package that the executor
    calls; the constant argument [tunnel.Tunnel] is left out. *)

Inductive Level := INFO | WARNING | ERROR.

(** Arguments of a log line: the values substituted for the verbs of the
    format string. *)
Inductive LogArg :=
  | AStr (s : string)
  | AInt (n : Z).

Inductive Event :=
  (* listener, inbound *)
  | PatchInboundListeners (listeners : gmap string string) (dropOld : bool)
  | SetAllowLan (b : bool)
  | SetSkipAuthPrefixes (prefixes : list string)
  | SetBindAddress (host : string)
  | ReCreateHTTP (port : Z)
  | ReCreateSocks (port : Z)
  | ReCreateRedir (port : Z)
  | ReCreateAutoRedir (ifaces : list string)
  | ReCreateTProxy (port : Z)
  | ReCreateMixed (port : Z)
  | ReCreateShadowSocks (spec : string)
  | ReCreateVmess (spec : string)
  | ReCreateTuic (spec : string)
  | SetTfo (b : bool)
  | SetMPTCP (b : bool)
  (* dns *)
  | ReCreateServer (addr : string) (r : option dns.Resolver)
                   (m : option dns.ResolverEnhancer)
  (* tproxy *)
  | CleanupTProxyIPTables
  | SetTProxyIPTables (ifname : string) (bypass : list string)
                      (tport dnsPort : Z) (err : option string)
  (* tunnel, dialer, iface, geodata *)
  | SetMode (m : string)
  | SetFindProcessMode (m : string)
  | SetTcpConcurrent (b : bool)
  | FlushCache
  | SetLoader (name : string)
  (* provider, outboundgroup *)
  | ProviderInitial (name : string) (err : option string)
  | ForceSet (group : positive) (selected : string)
  (* log *)
  | Log (lvl : Level) (format : string) (args : list LogArg).

(** ** Process-wide state *)

(** Variables of package [resolver] that the executor assigns. *)
Record ResolverVars := mkResolverVars {
  DefaultResolver : option dns.Resolver;
  DefaultHostMapper : option dns.ResolverEnhancer;
  DefaultLocalServer : option dns.LocalServer;
  ProxyServerHostResolver : option dns.Resolver;
  DisableIPv6 : bool
}.

(** State behind the setter/getter pairs of [listener] and [inbound]. *)
Record ListenerVars := mkListenerVars {
  allowLan : bool;
  bindAddress : string;
  skipAuthPrefixes : list string
}.

(** State of [dialer], [adapter] and [profile]: the concurrent-dial flag
    behind [SetTcpConcurrent]/[GetTcpConcurrent] and the atomic values the
    executor stores to. *)
Record DialerVars := mkDialerVars {
  tcpConcurrent : bool;
  DefaultInterface : string;
  DefaultRoutingMark : Z;
  UnifiedDelay : bool;
  StoreSelected : bool
}.

(** [selection] is the store of selector-group objects: the active
    selection of each, by address. *)
Record World := mkWorld {
  resolver : ResolverVars;
  listener : ListenerVars;
  dialer : DialerVars;
  selection : gmap positive string;
  trace : list Event
}.

Definition with_resolver (f : ResolverVars → ResolverVars) (w : World) : World :=
  {| resolver := f (resolver w); listener := listener w;
     dialer := dialer w; selection := selection w; trace := trace w |}.

Definition with_listener (f : ListenerVars → ListenerVars) (w : World) : World :=
  {| resolver := resolver w; listener := f (listener w);
     dialer := dialer w; selection := selection w; trace := trace w |}.

Definition with_dialer (f : DialerVars → DialerVars) (w : World) : World :=
  {| resolver := resolver w; listener := listener w;
     dialer := f (dialer w); selection := selection w; trace := trace w |}.

Definition with_trace (f : list Event → list Event) (w : World) : World :=
  {| resolver := resolver w; listener := listener w;
     dialer := dialer w; selection := selection w; trace := f (trace w) |}.

Definition with_selection (f : gmap positive string → gmap positive string)
    (w : World) : World :=
  {| resolver := resolver w; listener := listener w;
     dialer := dialer w; selection := f (selection w); trace := trace w |}.

(** ** The executor monad: state, and [os.Exit] as the second outcome *)

Inductive Result (A : Type) :=
  | Done (a : A) (w : World)
  | Exited (code : Z) (w : World).
Arguments Done {A} a w.
Arguments Exited {A} code w.

Definition M (A : Type) : Type := World → Result A.

#[global] Instance M_ret : MRet M := λ A a w, Done a w.

#[global] Instance M_bind : MBind M := λ A B k m w,
  match m w with
  | Done a w' => k a w'
  | Exited c w' => Exited c w'
  end.

Definition modify (f : World → World) : M unit := λ w, Done tt (f w).
Definition get {A} (f : World → A) : M A := λ w, Done (f w) w.

(** A call into a collaborator: recorded at the end of the trace. *)
Definition call (e : Event) : M unit := modify (with_trace (λ t, t ++ [e])).

(** [os.Exit(code)]. *)
Definition os_Exit {A} (code : Z) : M A := λ w, Exited code w.

(** The world an action leaves behind, whichever way it ends. *)
Definition world_of {A} (r : Result A) : World :=
  match r with
  | Done _ w => w
  | Exited _ w => w
  end.

Definition when (b : bool) (m : M unit) : M unit := if b then m else mret tt.

(** ** Setter/getter pairs of the collaborators

    [GetGeneral] reads [listener.AllowLan()], [listener.BindAddress()],
    [inbound.SkipAuthPrefixes()] and [dialer.GetTcpConcurrent()] back; the
    matching setters are a recorded call that also stores the value. *)

Module listener_pkg.

Definition SetAllowLan (al : bool) : M unit :=
  call (SetAllowLan al);;
  modify (with_listener (λ l,
    {| allowLan := al; bindAddress := bindAddress l;
       skipAuthPrefixes := skipAuthPrefixes l |})).

Definition SetBindAddress (host : string) : M unit :=
  call (SetBindAddress host);;
  modify (with_listener (λ l,
    {| allowLan := allowLan l; bindAddress := host;
       skipAuthPrefixes := skipAuthPrefixes l |})).

End listener_pkg.

Module inbound_pkg.

Definition SetSkipAuthPrefixes (prefixes : list string) : M unit :=
  call (SetSkipAuthPrefixes prefixes);;
  modify (with_listener (λ l,
    {| allowLan := allowLan l; bindAddress := bindAddress l;
       skipAuthPrefixes := prefixes |})).

End inbound_pkg.

Module dialer_pkg.

Definition SetTcpConcurrent (concurrent : bool) : M unit :=
  call (SetTcpConcurrent concurrent);;
  modify (with_dialer (λ d,
    {| tcpConcurrent := concurrent; DefaultInterface := DefaultInterface d;
       DefaultRoutingMark := DefaultRoutingMark d;
       UnifiedDelay := UnifiedDelay d; StoreSelected := StoreSelected d |})).

Definition set_DefaultInterface (name : string) (d : DialerVars) : DialerVars :=
  {| tcpConcurrent := tcpConcurrent d; DefaultInterface := name;
     DefaultRoutingMark := DefaultRoutingMark d;
     UnifiedDelay := UnifiedDelay d; StoreSelected := StoreSelected d |}.

Definition set_DefaultRoutingMark (mark : Z) (d : DialerVars) : DialerVars :=
  {| tcpConcurrent := tcpConcurrent d; DefaultInterface := DefaultInterface d;
     DefaultRoutingMark := mark;
     UnifiedDelay := UnifiedDelay d; StoreSelected := StoreSelected d |}.

Definition set_UnifiedDelay (b : bool) (d : DialerVars) : DialerVars :=
  {| tcpConcurrent := tcpConcurrent d; DefaultInterface := DefaultInterface d;
     DefaultRoutingMark := DefaultRoutingMark d;
     UnifiedDelay := b; StoreSelected := StoreSelected d |}.

Definition set_StoreSelected (b : bool) (d : DialerVars) : DialerVars :=
  {| tcpConcurrent := tcpConcurrent d; DefaultInterface := DefaultInterface d;
     DefaultRoutingMark := DefaultRoutingMark d;
     UnifiedDelay := UnifiedDelay d; StoreSelected := b |}.

End dialer_pkg.

(** Go's conversions [int32(x)] and [uint16(x)] of an [int]: wrap-around. *)
Definition int32 (x : Z) : Z := (x + 2 ^ 31) mod 2 ^ 32 - 2 ^ 31.
Definition uint16 (x : Z) : Z := x mod 2 ^ 16.

(** Assignments to the variables of package [resolver]. *)

Module resolver_pkg.

Definition set_DefaultResolver (v : option dns.Resolver) (r : ResolverVars) : ResolverVars :=
  {| DefaultResolver := v; DefaultHostMapper := DefaultHostMapper r;
     DefaultLocalServer := DefaultLocalServer r;
     ProxyServerHostResolver := ProxyServerHostResolver r;
     DisableIPv6 := DisableIPv6 r |}.

Definition set_DefaultHostMapper (v : option dns.ResolverEnhancer) (r : ResolverVars) : ResolverVars :=
  {| DefaultResolver := DefaultResolver r; DefaultHostMapper := v;
     DefaultLocalServer := DefaultLocalServer r;
     ProxyServerHostResolver := ProxyServerHostResolver r;
     DisableIPv6 := DisableIPv6 r |}.

Definition set_DefaultLocalServer (v : option dns.LocalServer) (r : ResolverVars) : ResolverVars :=
  {| DefaultResolver := DefaultResolver r; DefaultHostMapper := DefaultHostMapper r;
     DefaultLocalServer := v;
     ProxyServerHostResolver := ProxyServerHostResolver r;
     DisableIPv6 := DisableIPv6 r |}.

Definition set_ProxyServerHostResolver (v : option dns.Resolver) (r : ResolverVars) : ResolverVars :=
  {| DefaultResolver := DefaultResolver r; DefaultHostMapper := DefaultHostMapper r;
     DefaultLocalServer := DefaultLocalServer r;
     ProxyServerHostResolver := v;
     DisableIPv6 := DisableIPv6 r |}.

Definition set_DisableIPv6 (v : bool) (r : ResolverVars) : ResolverVars :=
  {| DefaultResolver := DefaultResolver r; DefaultHostMapper := DefaultHostMapper r;
     DefaultLocalServer := DefaultLocalServer r;
     ProxyServerHostResolver := ProxyServerHostResolver r;
     DisableIPv6 := v |}.

End resolver_pkg.

(** Methods of the collaborators' objects. *)

Module provider_pkg.

(** [pv.Initial()]: the call is recorded with the error it returned. *)
Definition Initial (pv : provider.Provider) : M (option string) :=
  call (ProviderInitial (provider.Name pv) (provider.Initial pv));;
  mret (provider.Initial pv).

End provider_pkg.

Module outboundgroup.

(** Modelled from the spec: [ForceSet] of [outboundgroup.SelectAble] is not
    under src/; re-applying a remembered selection makes it the group's
    active selection. *)
Definition ForceSet (group : positive) (selected : string) : M unit :=
  call (ForceSet group selected);;
  modify (with_selection (λ s, <[group := selected]> s)).

End outboundgroup.

(** ** The executor *)

Section Executor.

(** Build constant [features.CMFA] and [runtime.GOOS]. *)
Variable CMFA : bool.
Variable GOOS : string.

(** [netip.ParseAddrPort], as the port of the parsed address or [None] for
    an error. *)
Variable ParseAddrPort : string → option Z.

(** The error [tproxy.SetTProxyIPTables] answers for given arguments,
    [None] for success. *)
Variable SetTProxyIPTables_err : string → list string → Z → Z → option string.

(** [cachefile.Cache().SelectedMap()], [None] for Go's nil map. *)
Variable SelectedMap : option (gmap string string).

(** [updateListeners]: the generic patch always; the protocol listeners
    only on [force]. *)
Definition updateListeners (general : config.General)
    (listeners : gmap string string) (force : bool) : M unit :=
  call (PatchInboundListeners listeners true);;
  if negb force then mret tt
  else
    let allowLan := config.AllowLan general in
    listener_pkg.SetAllowLan allowLan;;
    inbound_pkg.SetSkipAuthPrefixes (config.SkipAuthPrefixes general);;
    let bindAddress := config.BindAddress general in
    listener_pkg.SetBindAddress bindAddress;;
    call (ReCreateHTTP (config.Port general));;
    call (ReCreateSocks (config.SocksPort general));;
    call (ReCreateRedir (config.RedirPort general));;
    when (negb CMFA)
      (call (ReCreateAutoRedir (config.AutoRedir (config.EBpf_ general))));;
    call (ReCreateTProxy (config.TProxyPort general));;
    call (ReCreateMixed (config.MixedPort general));;
    call (ReCreateShadowSocks (config.ShadowSocksConfig general));;
    call (ReCreateVmess (config.VmessConfig general));;
    call (ReCreateTuic (config.TuicServer general)).

(** The [dns.Config] literal [cfg] that [updateDNS] fills. *)
Definition updateDNS_cfg (c : config.DNS)
    (ruleProvider : list (string * provider.Provider)) (generalIPv6 : bool) : dns.Config :=
  {| dns.Main := config.NameServer c;
     dns.Fallback := config.Fallback c;
     dns.IPv6 := config.DNS_IPv6 c && generalIPv6;
     dns.IPv6Timeout := config.IPv6Timeout c;
     dns.EnhancedMode := config.EnhancedMode c;
     dns.Pool := config.FakeIPRange c;
     dns.Hosts := config.Hosts c;
     dns.FallbackFilter_ :=
       {| dns.GeoIP := config.GeoIP (config.FallbackFilter_ c);
          dns.GeoIPCode := config.GeoIPCode (config.FallbackFilter_ c);
          dns.IPCIDR := config.IPCIDR (config.FallbackFilter_ c);
          dns.Domain := config.Domain (config.FallbackFilter_ c);
          dns.GeoSite := config.GeoSite (config.FallbackFilter_ c) |};
     dns.Default := config.DefaultNameserver c;
     dns.Policy := config.NameServerPolicy c;
     dns.ProxyServer := config.ProxyServerNameserver c;
     dns.RuleProviders := ruleProvider;
     dns.CacheAlgorithm := config.CacheAlgorithm c |}.

(** [updateDNS]. *)
Definition updateDNS (c : config.DNS)
    (ruleProvider : list (string * provider.Provider)) (generalIPv6 : bool) : M unit :=
  if negb (config.Enable c) then
    modify (with_resolver (resolver_pkg.set_DefaultResolver None));;
    modify (with_resolver (resolver_pkg.set_DefaultHostMapper None));;
    modify (with_resolver (resolver_pkg.set_DefaultLocalServer None));;
    call (ReCreateServer "" None None)
  else
    let cfg := updateDNS_cfg c ruleProvider generalIPv6 in
    let r := dns.NewResolver cfg in
    let pr := dns.NewProxyServerHostResolver r in
    let m := dns.NewEnhancer cfg in
    (* reuse cache of old host mapper *)
    old ← get (λ w, DefaultHostMapper (resolver w));
    let m := match old with
             | Some old => dns.PatchFrom m old
             | None => m
             end in
    modify (with_resolver (resolver_pkg.set_DefaultResolver (Some r)));;
    modify (with_resolver (resolver_pkg.set_DefaultHostMapper (Some m)));;
    modify (with_resolver
      (resolver_pkg.set_DefaultLocalServer (Some (dns.NewLocalServer r m))));;
    when (dns.Invalid pr)
      (modify (with_resolver (resolver_pkg.set_ProxyServerHostResolver (Some pr))));;
    call (ReCreateServer (config.Listen c) (Some r) (Some m)).

(** [loadProvider]: one provider's initialization. *)
Definition loadProvider (pv : provider.Provider) : M unit :=
  if decide (provider.Vehicle pv = provider.Compatible) then mret tt
  else
    call (Log INFO "Start initial provider %s" [AStr (provider.Name pv)]);;
    err ← provider_pkg.Initial pv;
    match err with
    | Some err =>
        match provider.Type_ pv with
        | provider.Proxy =>
            call (Log ERROR "initial proxy provider %s error: %v"
                    [AStr (provider.Name pv); AStr err])
        | provider.Rule =>
            call (Log ERROR "initial rule provider %s error: %v"
                    [AStr (provider.Name pv); AStr err])
        end
    | None => mret tt
    end.

(** The goroutine [hcCompatibleProvider] starts for a provider. *)
Definition hcCompatibleProvider_task (proxyProvider : provider.Provider) : M unit :=
  err ← provider_pkg.Initial proxyProvider;
  match err with
  | Some err =>
      call (Log ERROR "initial Compatible provider %s error: %v"
              [AStr (provider.Name proxyProvider); AStr err])
  | None => mret tt
  end.

(** [updateGeneral]. *)
Definition updateGeneral (general : config.General) : M unit :=
  call (SetMode (config.Mode general));;
  call (SetFindProcessMode (config.FindProcessMode general));;
  modify (with_resolver
    (resolver_pkg.set_DisableIPv6 (negb (config.IPv6 general))));;
  when (config.TCPConcurrent general)
    (dialer_pkg.SetTcpConcurrent (config.TCPConcurrent general);;
     call (Log INFO "Use tcp concurrent" []));;
  call (SetTfo (config.InboundTfo general));;
  call (SetMPTCP (config.InboundMPTCP general));;
  modify (with_dialer (dialer_pkg.set_UnifiedDelay (config.UnifiedDelay general)));;
  modify (with_dialer (dialer_pkg.set_DefaultInterface (config.Interface general)));;
  modify (with_dialer
    (dialer_pkg.set_DefaultRoutingMark (int32 (config.RoutingMark general))));;
  when (bool_decide (0 < config.RoutingMark general))
    (call (Log INFO "Use routing mark: %#x" [AInt (config.RoutingMark general)]));;
  call FlushCache;;
  let geodataLoader := config.GeodataLoader general in
  call (SetLoader geodataLoader).

(** The body of the loop of [patchSelectGroup], for one entry of the map. *)
Definition patchSelectGroup_entry (mapping : gmap string string)
    (name : string) (proxy : adapter.Proxy) : M unit :=
  match proxy with
  | adapter.AdapterProxy outbound =>
      match outbound with
      | adapter.SelectAble selector =>
          match mapping !! name with
          | Some selected => outboundgroup.ForceSet selector selected
          | None => mret tt
          end
      | adapter.Plain => mret tt
      end
  | adapter.OtherProxy => mret tt
  end.

Fixpoint patchSelectGroup_range (mapping : gmap string string)
    (proxies : list (string * adapter.Proxy)) : M unit :=
  match proxies with
  | [] => mret tt
  | (name, proxy) :: rest =>
      patchSelectGroup_entry mapping name proxy;;
      patchSelectGroup_range mapping rest
  end.

(** [patchSelectGroup]. *)
Definition patchSelectGroup (proxies : list (string * adapter.Proxy)) : M unit :=
  match SelectedMap with
  | None => mret tt
  | Some mapping => patchSelectGroup_range mapping proxies
  end.

(** [updateProfile]. *)
Definition updateProfile (cfg : config.Config) : M unit :=
  let profileCfg := config.Profile_ cfg in
  modify (with_dialer
    (dialer_pkg.set_StoreSelected (config.StoreSelected profileCfg)));;
  when (config.StoreSelected profileCfg)
    (patchSelectGroup (config.Proxies cfg)).

(** [tproxy.SetTProxyIPTables]: the call is recorded with its outcome. *)
Definition tproxy_SetTProxyIPTables (ifname : string) (bypass : list string)
    (tport dnsPort : Z) : M (option string) :=
  let err := SetTProxyIPTables_err ifname bypass tport dnsPort in
  call (SetTProxyIPTables ifname bypass tport dnsPort err);;
  mret err.

(** The part of [updateIPTables] after its [defer]: it answers the value
    [err] has when the function returns. *)
Definition updateIPTables_deferred_scope (cfg : config.Config) : M (option string) :=
  let iptables := config.IPTables_ cfg in
  if config.Tun_Enable (config.Tun_ (config.General_ cfg)) then
    mret (Some "when tun is enabled, iptables cannot be set automatically")
  else
    let bypass := config.Bypass iptables in
    let tProxyPort := config.TProxyPort (config.General_ cfg) in
    let dnsCfg := config.DNS_ cfg in
    if bool_decide (tProxyPort = 0) then
      mret (Some "tproxy-port must be greater than zero")
    else if negb (config.Enable dnsCfg) then
      mret (Some "DNS server must be enable")
    else
      match ParseAddrPort (config.Listen dnsCfg) with
      | None => mret (Some "DNS server must be correct")
      | Some dnsPort =>
          let inboundInterface :=
            if bool_decide (config.InboundInterface iptables ≠ "")
            then config.InboundInterface iptables else "lo" in
          mark ← get (λ w, DefaultRoutingMark (dialer w));
          when (bool_decide (mark = 0))
            (modify (with_dialer (dialer_pkg.set_DefaultRoutingMark 2158)));;
          err ← tproxy_SetTProxyIPTables inboundInterface bypass
                  (uint16 tProxyPort) dnsPort;
          match err with
          | Some err => mret (Some err)
          | None =>
              call (Log INFO "[IPTABLES] Setting iptables completed" []);;
              mret None
          end
      end.

(** [updateIPTables]: cleanup, the platform and configuration gate, then
    the guarded part followed by the deferred exit on error. *)
Definition updateIPTables (cfg : config.Config) : M unit :=
  call CleanupTProxyIPTables;;
  let iptables := config.IPTables_ cfg in
  if bool_decide (GOOS ≠ "linux") || negb (config.IPT_Enable iptables) then mret tt
  else
    err ← updateIPTables_deferred_scope cfg;
    match err with
    | Some err =>
        call (Log ERROR "[IPTABLES] setting iptables failed: %s" [AStr err]);;
        os_Exit 2
    | None => mret tt
    end.

End Executor.

(** ** The provider phases: goroutines behind a WaitGroup and a channel

    [loadRuleProvider], [loadProxyProvider] and [hcCompatibleProvider] share
    one shape: a range loop that, for some providers, does [wg.Add(1)],
    sends on the buffered channel [ch] (capacity [concurrentCount]) and
    starts a goroutine whose deferred function receives from [ch] and calls
    [wg.Done()]; two of the three end with [wg.Wait()].  A [Phase] holds
    what differs, and [step] interleaves the launching function with its
    goroutines, one statement at a time. *)

(** Program points of the launching function. *)
Inductive MainPc :=
  | AtRange
  | AtAdd (p : provider.Provider)
  | AtSend (p : provider.Provider)
  | AtGo (p : provider.Provider)
  | AtWait
  | Returned.

(** Program points of a goroutine: in the task, then the two statements of
    its deferred function, [<-ch] and [wg.Done()]. *)
Inductive GoPc := InTask | AtRecv | AtWgDone.

#[global] Instance GoPc_eq_dec : EqDecision GoPc.
Proof. solve_decision. Defined.

Record Phase := mkPhase {
  launches : provider.Provider → bool;
  announce : provider.Provider → M unit;
  task : provider.Provider → M unit;
  waits : bool
}.

Record Run := mkRun {
  pc : MainPc;
  pending : list provider.Provider;
  wg : nat;
  ch : nat;
  goroutines : list (provider.Provider * GoPc);
  world : World
}.

(** The state on entry: the range is over the values of the map. *)
Definition start (providers : list (string * provider.Provider)) (w : World) : Run :=
  mkRun AtRange (providers.*2) 0 0 [] w.

Section Phases.

(** The constant [concurrentCount], declared in another file of the
    package. *)
Variable concurrentCount : nat.

Variable ph : Phase.

(** A send on [ch] needs room in the buffer; with capacity zero it needs a
    receiver, and the only receivers are goroutines started after a send.
    [wg.Wait()] needs the counter at zero; [wg.Done()] at zero panics. *)
Inductive step : Run → Run → Prop :=
  | step_skip p ps n c gs w :
      launches ph p = false →
      step (mkRun AtRange (p :: ps) n c gs w) (mkRun AtRange ps n c gs w)
  | step_enter p ps n c gs w :
      launches ph p = true →
      step (mkRun AtRange (p :: ps) n c gs w)
           (mkRun (AtAdd p) ps n c gs (world_of (announce ph p w)))
  | step_add p ps n c gs w :
      step (mkRun (AtAdd p) ps n c gs w) (mkRun (AtSend p) ps (S n) c gs w)
  | step_send p ps n c gs w :
      (c < concurrentCount)%nat →
      step (mkRun (AtSend p) ps n c gs w) (mkRun (AtGo p) ps n (S c) gs w)
  | step_go p ps n c gs w :
      step (mkRun (AtGo p) ps n c gs w)
           (mkRun AtRange ps n c (gs ++ [(p, InTask)]) w)
  | step_range_end n c gs w :
      step (mkRun AtRange [] n c gs w)
           (mkRun (if waits ph then AtWait else Returned) [] n c gs w)
  | step_wait ps c gs w :
      step (mkRun AtWait ps 0 c gs w) (mkRun Returned ps 0 c gs w)
  | step_task m ps n c gs1 p gs2 w :
      step (mkRun m ps n c (gs1 ++ (p, InTask) :: gs2) w)
           (mkRun m ps n c (gs1 ++ (p, AtRecv) :: gs2) (world_of (task ph p w)))
  | step_recv m ps n c gs1 p gs2 w :
      step (mkRun m ps n (S c) (gs1 ++ (p, AtRecv) :: gs2) w)
           (mkRun m ps n c (gs1 ++ (p, AtWgDone) :: gs2) w)
  | step_done m ps n c gs1 p gs2 w :
      step (mkRun m ps (S n) c (gs1 ++ (p, AtWgDone) :: gs2) w)
           (mkRun m ps n c (gs1 ++ gs2) w).

(** The states a phase can be in, started on [providers] in world [w]. *)
Definition reachable (providers : list (string * provider.Provider)) (w : World)
    (r : Run) : Prop :=
  rtc step (start providers w) r.

End Phases.

(** Initialization tasks in flight: goroutines that are inside their task. *)
Definition in_flight (r : Run) : nat :=
  length (filter (λ g, g.2 = InTask) (goroutines r)).

(** The launching function has returned and every goroutine it started is
    gone. *)
Definition finished (r : Run) : Prop :=
  pc r = Returned ∧ goroutines r = [].

(** [loadRuleProvider]. *)
Definition loadRuleProvider : Phase :=
  {| launches := λ _, true;
     announce := λ _, mret tt;
     task := loadProvider;
     waits := true |}.

(** [loadProxyProvider]. *)
Definition loadProxyProvider : Phase :=
  {| launches := λ _, true;
     announce := λ _, mret tt;
     task := loadProvider;
     waits := true |}.

(** [hcCompatibleProvider]: no [wg.Wait()] after the loop. *)
Definition hcCompatibleProvider : Phase :=
  {| launches := λ proxyProvider,
       bool_decide (provider.Vehicle proxyProvider = provider.Compatible);
     announce := λ proxyProvider,
       call (Log INFO "Start initial Compatible provider %s"
               [AStr (provider.Name proxyProvider)]);
     task := hcCompatibleProvider_task;
     waits := false |}.

(** ** Sample inputs *)

Definition world0 : World :=
  {| resolver := {| DefaultResolver := None; DefaultHostMapper := None;
                    DefaultLocalServer := None; ProxyServerHostResolver := None;
                    DisableIPv6 := false |};
     listener := {| allowLan := false; bindAddress := "*"; skipAuthPrefixes := [] |};
     dialer := {| tcpConcurrent := false; DefaultInterface := "";
                  DefaultRoutingMark := 0; UnifiedDelay := false;
                  StoreSelected := false |};
     selection := ∅;
     trace := [] |}.

Definition general0 : config.General :=
  {| config.Port := 7890; config.SocksPort := 7891; config.RedirPort := 0;
     config.TProxyPort := 7893; config.MixedPort := 0;
     config.Tun_ := {| config.Tun_Enable := false; config.RedirectToTun := [] |};
     config.TuicServer := ""; config.ShadowSocksConfig := "";
     config.VmessConfig := ""; config.SkipAuthPrefixes := [];
     config.AllowLan := true; config.BindAddress := "*";
     config.InboundTfo := false; config.InboundMPTCP := false;
     config.Mode := "rule"; config.FindProcessMode := "strict";
     config.UnifiedDelay := false; config.IPv6 := true;
     config.Interface := ""; config.RoutingMark := 0;
     config.GeodataLoader := "memconservative"; config.TCPConcurrent := false;
     config.EBpf_ := {| config.AutoRedir := [] |} |}.

Definition dns0 (enable : bool) (listen : string) (proxyServers : list string)
    : config.DNS :=
  {| config.Enable := enable; config.DNS_IPv6 := false; config.IPv6Timeout := 100;
     config.NameServer := ["223.5.5.5"]; config.Fallback := [];
     config.FallbackFilter_ :=
       {| config.GeoIP := false; config.GeoIPCode := "CN"; config.IPCIDR := [];
          config.Domain := []; config.GeoSite := [] |};
     config.Listen := listen; config.EnhancedMode := "fake-ip";
     config.DefaultNameserver := []; config.CacheAlgorithm := "lru";
     config.FakeIPRange := "198.18.0.0/16"; config.Hosts := [];
     config.NameServerPolicy := [];
     config.ProxyServerNameserver := proxyServers |}.

(** A world whose host mapper already remembers [example.com]. *)
Definition enhancer1 : dns.ResolverEnhancer :=
  {| dns.mode := "fake-ip"; dns.mapping := {[ "example.com" := "198.18.0.5" ]} |}.

Definition world1 : World :=
  with_resolver (resolver_pkg.set_DefaultHostMapper (Some enhancer1)) world0.

(** ** Vocabulary of the properties *)

(** The calls [updateListeners] makes on [force], in order. *)
Definition forced_listener_calls (CMFA : bool) (general : config.General)
    (listeners : gmap string string) : list Event :=
  [ PatchInboundListeners listeners true;
    SetAllowLan (config.AllowLan general);
    SetSkipAuthPrefixes (config.SkipAuthPrefixes general);
    SetBindAddress (config.BindAddress general);
    ReCreateHTTP (config.Port general);
    ReCreateSocks (config.SocksPort general);
    ReCreateRedir (config.RedirPort general) ]
  ++ (if CMFA then []
      else [ReCreateAutoRedir (config.AutoRedir (config.EBpf_ general))])
  ++ [ ReCreateTProxy (config.TProxyPort general);
       ReCreateMixed (config.MixedPort general);
       ReCreateShadowSocks (config.ShadowSocksConfig general);
       ReCreateVmess (config.VmessConfig general);
       ReCreateTuic (config.TuicServer general) ].

(** The interface [updateIPTables] hands to [tproxy.SetTProxyIPTables]. *)
Definition iptables_ifname (cfg : config.Config) : string :=
  if bool_decide (config.InboundInterface (config.IPTables_ cfg) ≠ "")
  then config.InboundInterface (config.IPTables_ cfg) else "lo".

(** The conditions under which the privileged-rule step is fatal: tun
    enabled, a zero transparent-proxy port, DNS disabled, a DNS listen
    address that does not parse, or a failing installation call. *)
Definition iptables_fatal (ParseAddrPort : string → option Z)
    (SetTProxyIPTables_err : string → list string → Z → Z → option string)
    (cfg : config.Config) : Prop :=
  config.Tun_Enable (config.Tun_ (config.General_ cfg)) = true
  ∨ config.TProxyPort (config.General_ cfg) = 0
  ∨ config.Enable (config.DNS_ cfg) = false
  ∨ ParseAddrPort (config.Listen (config.DNS_ cfg)) = None
  ∨ ∃ dnsPort err,
      ParseAddrPort (config.Listen (config.DNS_ cfg)) = Some dnsPort
      ∧ SetTProxyIPTables_err (iptables_ifname cfg)
          (config.Bypass (config.IPTables_ cfg))
          (uint16 (config.TProxyPort (config.General_ cfg))) dnsPort = Some err.

(** A call that installed rules: [SetTProxyIPTables] answering nil. *)
Definition installs_rules (e : Event) : bool :=
  match e with
  | SetTProxyIPTables _ _ _ _ None => true
  | _ => false
  end.

(** A call to [dialer.SetTcpConcurrent]. *)
Definition sets_tcp_concurrent (e : Event) : bool :=
  match e with
  | SetTcpConcurrent _ => true
  | _ => false
  end.

(** Sample configurations for the privileged-rule step. *)
Definition config0 (tun : bool) (tproxyPort : Z) (dnsOn : bool) (listen : string)
    : config.Config :=
  {| config.General_ :=
       {| config.Port := 7890; config.SocksPort := 7891; config.RedirPort := 0;
          config.TProxyPort := tproxyPort; config.MixedPort := 0;
          config.Tun_ := {| config.Tun_Enable := tun; config.RedirectToTun := [] |};
          config.TuicServer := ""; config.ShadowSocksConfig := "";
          config.VmessConfig := ""; config.SkipAuthPrefixes := [];
          config.AllowLan := true; config.BindAddress := "*";
          config.InboundTfo := false; config.InboundMPTCP := false;
          config.Mode := "rule"; config.FindProcessMode := "strict";
          config.UnifiedDelay := false; config.IPv6 := true;
          config.Interface := ""; config.RoutingMark := 0;
          config.GeodataLoader := "memconservative"; config.TCPConcurrent := false;
          config.EBpf_ := {| config.AutoRedir := [] |} |};
     config.DNS_ := dns0 dnsOn listen [];
     config.IPTables_ :=
       {| config.IPT_Enable := true; config.InboundInterface := "";
          config.Bypass := ["10.0.0.0/8"] |};
     config.Profile_ := {| config.StoreSelected := true |};
     config.Proxies :=
       [ ("Auto", adapter.AdapterProxy (adapter.SelectAble 1%positive));
         ("NodeA", adapter.AdapterProxy adapter.Plain);
         ("Manual", adapter.AdapterProxy (adapter.SelectAble 2%positive)) ];
     config.Providers := [];
     config.RuleProviders := [] |}.

(** A stand-in for [netip.ParseAddrPort] that knows one address. *)
Definition parse0 (s : string) : option Z :=
  if bool_decide (s = "0.0.0.0:1053") then Some 1053 else None.

(** Stand-ins for [tproxy.SetTProxyIPTables]: one that succeeds, one that
    fails. *)
Definition install_ok (_ : string) (_ : list string) (_ _ : Z) : option string :=
  None.

Definition install_fails (_ : string) (_ : list string) (_ _ : Z) : option string :=
  Some "exit status 4".

(** The selections [patchSelectGroup] re-applies, in range order: one for
    each entry that is an [*adapter.Proxy] around a selector-capable group
    and whose name is in the persisted map. *)
Definition remembered_selections (mapping : gmap string string)
    (proxies : list (string * adapter.Proxy)) : list (positive * string) :=
  omap (λ entry,
          match entry.2 with
          | adapter.AdapterProxy (adapter.SelectAble group) =>
              (λ selected, (group, selected)) <$> mapping !! entry.1
          | _ => None
          end) proxies.

(** The persisted choice of the scenario: group "Auto" had "NodeA". *)
Definition selected0 : gmap string string := {[ "Auto" := "NodeA" ]}.

(** The calls one run of [loadProvider] makes. *)
Definition loadProvider_calls (pv : provider.Provider) : list Event :=
  match provider.Vehicle pv with
  | provider.Compatible => []
  | provider.Managed =>
      [ Log INFO "Start initial provider %s" [AStr (provider.Name pv)];
        ProviderInitial (provider.Name pv) (provider.Initial pv) ]
      ++ match provider.Initial pv with
         | None => []
         | Some err =>
             [ Log ERROR
                 match provider.Type_ pv with
                 | provider.Proxy => "initial proxy provider %s error: %v"
                 | provider.Rule => "initial rule provider %s error: %v"
                 end
                 [AStr (provider.Name pv); AStr err] ]
         end
  end.

(** The calls the goroutine of [hcCompatibleProvider] makes. *)
Definition hcCompatibleProvider_task_calls (pv : provider.Provider) : list Event :=
  ProviderInitial (provider.Name pv) (provider.Initial pv)
  :: match provider.Initial pv with
     | None => []
     | Some err =>
         [ Log ERROR "initial Compatible provider %s error: %v"
             [AStr (provider.Name pv); AStr err] ]
     end.

(** A call to some provider's [Initial]. *)
Definition is_initial (e : Event) : bool :=
  match e with
  | ProviderInitial _ _ => true
  | _ => false
  end.

(** Sample providers: a managed one whose fetch fails, a managed one that
    loads, and a compatible one. *)
Definition remote_bad : provider.Provider :=
  {| provider.Name := "remote-bad"; provider.Type_ := provider.Proxy;
     provider.Vehicle := provider.Managed;
     provider.Initial := Some "context deadline exceeded" |}.

Definition remote_ok : provider.Provider :=
  {| provider.Name := "remote-ok"; provider.Type_ := provider.Rule;
     provider.Vehicle := provider.Managed; provider.Initial := None |}.

Definition inline_group : provider.Provider :=
  {| provider.Name := "inline"; provider.Type_ := provider.Proxy;
     provider.Vehicle := provider.Compatible; provider.Initial := None |}.

(** ** Accounting of the WaitGroup and the channel *)

(** The launching function has done [wg.Add(1)] for a goroutine it has not
    started yet. *)
Definition pc_added (m : MainPc) : nat :=
  match m with
  | AtSend _ | AtGo _ => 1
  | _ => 0
  end.

(** The launching function has sent on [ch] for a goroutine it has not
    started yet. *)
Definition pc_sent (m : MainPc) : nat :=
  match m with
  | AtGo _ => 1
  | _ => 0
  end.

(** The provider the launching function is busy with. *)
Definition pc_provider (m : MainPc) : option provider.Provider :=
  match m with
  | AtAdd p | AtSend p | AtGo p => Some p
  | _ => None
  end.

(** A goroutine that has not yet received from [ch]. *)
Definition holds_slot (g : provider.Provider * GoPc) : bool :=
  match g.2 with
  | InTask | AtRecv => true
  | AtWgDone => false
  end.

(** The WaitGroup counter counts the goroutines alive (plus the one being
    started), the channel holds one element per goroutine that has not
    received yet (plus the one being started) and never more than its
    capacity, and past the loop nothing is pending. *)
Definition balanced (concurrentCount : nat) (r : Run) : Prop :=
  wg r = (length (goroutines r) + pc_added (pc r))%nat
  ∧ ch r = (length (filter (λ g, holds_slot g = true) (goroutines r))
            + pc_sent (pc r))%nat
  ∧ (ch r ≤ concurrentCount)%nat
  ∧ match pc r with
    | AtWait | Returned => pending r = []
    | _ => True
    end.

(** What is left to do: every step of a phase lowers it. *)
Definition go_weight (g : provider.Provider * GoPc) : nat :=
  match g.2 with
  | InTask => 3
  | AtRecv => 2
  | AtWgDone => 1
  end.

Definition pc_weight (m : MainPc) : nat :=
  match m with
  | AtAdd _ => 8
  | AtSend _ => 7
  | AtGo _ => 6
  | AtRange => 2
  | AtWait => 1
  | Returned => 0
  end.

Definition remaining (r : Run) : nat :=
  10 * length (pending r) + pc_weight (pc r)
  + sum_list_with go_weight (goroutines r).

(** ** Accounting of the calls a phase makes

    [ann p] and [tsk p] are the calls the launching function makes before
    starting the goroutine for [p] and the calls that goroutine makes.  In
    a run started on [ps0] in world [w0], everything in the state comes from
    a provider of [ps0] that the loop launches; the trace has grown by calls
    of such providers only; and a launched provider is still pending, or
    being launched, or in its task, or all calls of its task are on the
    trace. *)
Definition accounted (ph : Phase) (ann tsk : provider.Provider → list Event)
    (ps0 : list provider.Provider) (w0 : World) (r : Run) : Prop :=
  (∀ p, p ∈ pending r → p ∈ ps0)
  ∧ (∀ p, pc_provider (pc r) = Some p → p ∈ ps0 ∧ launches ph p = true)
  ∧ (∀ p g, (p, g) ∈ goroutines r → p ∈ ps0 ∧ launches ph p = true)
  ∧ ∃ t, trace (world r) = trace w0 ++ t
      ∧ (∀ e, e ∈ t →
           ∃ p, p ∈ ps0 ∧ launches ph p = true ∧ (e ∈ ann p ∨ e ∈ tsk p))
      ∧ (∀ p, p ∈ ps0 → launches ph p = true →
           p ∈ pending r ∨ pc_provider (pc r) = Some p
           ∨ (p, InTask) ∈ goroutines r ∨ (∀ e, e ∈ tsk p → e ∈ t)).

(** ** Proof automation *)

(** Runs a straight-line program of the executor monad on a symbolic
    world: unfolds the monad and the setters, nothing else. *)
Ltac run_M :=
  cbv beta iota zeta delta
    [mbind M_bind mret M_ret call modify get when os_Exit world_of
     with_trace with_resolver with_listener with_dialer with_selection
     listener_pkg.SetAllowLan listener_pkg.SetBindAddress
     inbound_pkg.SetSkipAuthPrefixes dialer_pkg.SetTcpConcurrent
     dialer_pkg.set_DefaultInterface dialer_pkg.set_DefaultRoutingMark
     dialer_pkg.set_UnifiedDelay dialer_pkg.set_StoreSelected
     resolver_pkg.set_DefaultResolver resolver_pkg.set_DefaultHostMapper
     resolver_pkg.set_DefaultLocalServer
     resolver_pkg.set_ProxyServerHostResolver resolver_pkg.set_DisableIPv6
     provider_pkg.Initial outboundgroup.ForceSet negb
     resolver listener dialer selection trace
     DefaultResolver DefaultHostMapper DefaultLocalServer
     ProxyServerHostResolver DisableIPv6
     allowLan bindAddress skipAuthPrefixes
     tcpConcurrent DefaultInterface DefaultRoutingMark UnifiedDelay
     StoreSelected].

(** Splits on the next condition the program tests. *)
Ltac next_test :=
  match goal with
  | |- context [if ?b then _ else _] => destruct b eqn:?
  | |- context [match ?o with Some _ => _ | None => _ end] => destruct o eqn:?
  end.

(** Normalizes lengths and filters over a goroutine list split around one
    goroutine. *)
Ltac count_goroutines :=
  cbn [wg ch pc pending goroutines pc_added pc_sent] in *;
  rewrite ?length_app, ?filter_app, ?filter_cons, ?filter_nil, ?length_app in *;
  cbn [length holds_slot snd] in *;
  repeat (case_decide; try done);
  rewrite ?length_app in *; cbn [length] in *.


(** ** Counting the [Initial] calls of a phase *)

(** The number of calls to some provider's [Initial] on a trace. *)
Definition initial_calls (t : list Event) : nat :=
  length (filter (λ e, is_initial e = true) t).

(** The [Initial] calls a phase still owes in a state, when the task of
    provider [p] makes [k p] of them: those of the launched providers still
    pending, of the one being launched, and of the goroutines still in
    their task. *)
Definition owed (ph : Phase) (k : provider.Provider → nat) (r : Run) : nat :=
  sum_list_with (λ p, if launches ph p then k p else 0%nat) (pending r)
  + match pc_provider (pc r) with
    | Some p => k p
    | None => 0%nat
    end
  + sum_list_with (λ g, match g.2 with InTask => k g.1 | _ => 0%nat end)
      (goroutines r).

(** ** Reading the configuration file *)

(** Go [error] values this part meets: an error of package [os] (with what
    [os.IsNotExist] answers for it), an error of [config.Parse], and the
    result of [fmt.Errorf]. *)
Inductive error :=
  | OsError (msg : string) (notExist : bool)
  | ParseError (msg : string)
  | Errorf (format : string) (args : list LogArg).

(** [os.IsNotExist(err)], false for nil. *)
Definition IsNotExist (err : option error) : bool :=
  match err with
  | Some (OsError _ notExist) => notExist
  | _ => false
  end.

Section Parse.

(** The file system at the time of the calls: the error of [os.Stat] (nil
    when the path can be examined) and the pair [os.ReadFile] returns. *)
Variable Stat : string → option error.
Variable ReadFile : string → list Byte.byte * option error.

(** [config.Parse] and [C.Path.Config()]. *)
Variable config_Parse : list Byte.byte → option config.Config * option error.
Variable Path_Config : string.

(** [readConfig]: the pair it returns, [None] for nil. *)
Definition readConfig (path : string) : option (list Byte.byte) * option error :=
  let err := Stat path in
  if IsNotExist err then (None, err)
  else
    let '(data, err) := ReadFile path in
    match err with
    | Some _ => (None, err)
    | None =>
        if bool_decide (length data = 0%nat) then
          (None, Some (Errorf "configuration file %s is empty" [AStr path]))
        else (Some data, err)
    end.

(** [ParseWithBytes]. *)
Definition ParseWithBytes (buf : list Byte.byte)
    : option config.Config * option error :=
  config_Parse buf.

(** [ParseWithPath]; a nil buffer is the empty slice. *)
Definition ParseWithPath (path : string) : option config.Config * option error :=
  let '(buf, err) := readConfig path in
  match err with
  | Some _ => (None, err)
  | None => ParseWithBytes (default [] buf)
  end.

(** [Parse]. *)
Definition Parse : option config.Config * option error :=
  ParseWithPath Path_Config.

End Parse.

(** A file system with one readable configuration file, an empty file and
    a directory entry that cannot be read. *)
Definition stat0 (path : string) : option error :=
  if bool_decide (path = "config.yaml") then None
  else if bool_decide (path = "empty.yaml") then None
  else if bool_decide (path = "locked.yaml") then None
  else Some (OsError "no such file or directory" true).

Definition readFile0 (path : string) : list Byte.byte * option error :=
  if bool_decide (path = "config.yaml") then ([Byte.x6d; Byte.x3a], None)
  else if bool_decide (path = "empty.yaml") then ([], None)
  else if bool_decide (path = "locked.yaml")
  then ([], Some (OsError "permission denied" false))
  else ([], Some (OsError "no such file or directory" true)).

(** ** Sections of the configuration read by the remaining updaters *)

Module config_more.

(** [config.Experimental]. *)
Record Experimental := mkExperimental {
  QUICGoDisableGSO : bool;
  QUICGoDisableECN : bool
}.

(** [config.NTP]. *)
Record NTP := mkNTP {
  Enable : bool;
  Server : string;
  Port : Z;
  Interval : Z;
  DialerProxy : string;
  WriteToSystem : bool
}.

End config_more.

(** The process environment, and [os.Setenv] on it (its error, which the
    executor drops, does not arise for these keys). *)
Definition os_Setenv (key value : string) (env : gmap string string)
    : gmap string string :=
  <[key := value]> env.

(** [strconv.FormatBool]. *)
Definition FormatBool (b : bool) : string :=
  if b then "true" else "false".

(** [updateExperimental], on the [Experimental] section of the
    configuration and the environment. *)
Definition updateExperimental (c : config_more.Experimental)
    (env : gmap string string) : gmap string string :=
  let env :=
    if config_more.QUICGoDisableGSO c
    then os_Setenv "QUIC_GO_DISABLE_GSO" (FormatBool true) env else env in
  if config_more.QUICGoDisableECN c
  then os_Setenv "QUIC_GO_DISABLE_ECN" (FormatBool true) env else env.

(** The arguments of [ntp.ReCreateNTPService]: the service it (re)starts. *)
Record NTPService := mkNTPService {
  ntp_addr : string;
  ntp_interval : Z;
  ntp_dialerProxy : string;
  ntp_writeToSystem : bool
}.

Section NTP.

(** [net.JoinHostPort] and [strconv.Itoa]. *)
Variable JoinHostPort : string → string → string.
Variable Itoa : Z → string.

(** [updateNTP], on the running service ([None] when none was started). *)
Definition updateNTP (c : config_more.NTP) (service : option NTPService)
    : option NTPService :=
  if config_more.Enable c then
    Some {| ntp_addr :=
              JoinHostPort (config_more.Server c) (Itoa (config_more.Port c));
            ntp_interval := config_more.Interval c;
            ntp_dialerProxy := config_more.DialerProxy c;
            ntp_writeToSystem := config_more.WriteToSystem c |}
  else service.

End NTP.

(** ** Reporting the live settings *)

(** [listener.Ports], what [listener.GetPorts()] answers. *)
Record Ports := mkPorts {
  ports_Port : Z;
  ports_SocksPort : Z;
  ports_RedirPort : Z;
  ports_TProxyPort : Z;
  ports_MixedPort : Z;
  ports_ShadowSocksConfig : string;
  ports_VmessConfig : string
}.

(** The fields of [config.General] that only [GetGeneral] fills. *)
Record GeneralReport := mkGeneralReport {
  Authentication : list string;
  LogLevel : string;
  Sniffing : bool
}.

Section GetGeneral.

(** What the collaborators answer when asked: [listener.GetPorts()], the
    users of [authStore.Authenticator()] (nil without one),
    [listener.GetTunConf()], [listener.GetTuicConf()], [tunnel.Mode()],
    [log.Level()], [G.LoaderName()] and [tunnel.IsSniffing()]. *)
Variable GetPorts : Ports.
Variable Authenticator_Users : option (list string).
Variable GetTunConf : config.Tun.
Variable GetTuicConf : string.
Variable tunnel_Mode : string.
Variable log_Level : string.
Variable LoaderName : string.
Variable IsSniffing : bool.

(** [GetGeneral]: the literal it returns; a field the literal leaves out
    has Go's zero value. *)
Definition GetGeneral (w : World) : config.General * GeneralReport :=
  let ports := GetPorts in
  let authenticator :=
    match Authenticator_Users with
    | Some users => users
    | None => []
    end in
  ({| config.Port := ports_Port ports;
      config.SocksPort := ports_SocksPort ports;
      config.RedirPort := ports_RedirPort ports;
      config.TProxyPort := ports_TProxyPort ports;
      config.MixedPort := ports_MixedPort ports;
      config.Tun_ := GetTunConf;
      config.TuicServer := GetTuicConf;
      config.ShadowSocksConfig := ports_ShadowSocksConfig ports;
      config.VmessConfig := ports_VmessConfig ports;
      config.SkipAuthPrefixes := skipAuthPrefixes (listener w);
      config.AllowLan := allowLan (listener w);
      config.BindAddress := bindAddress (listener w);
      config.InboundTfo := false;
      config.InboundMPTCP := false;
      config.Mode := tunnel_Mode;
      config.FindProcessMode := "";
      config.UnifiedDelay := false;
      config.IPv6 := negb (DisableIPv6 (resolver w));
      config.Interface := DefaultInterface (dialer w);
      config.RoutingMark := 0;
      config.GeodataLoader := LoaderName;
      config.TCPConcurrent := tcpConcurrent (dialer w);
      config.EBpf_ := {| config.AutoRedir := [] |} |},
   {| Authentication := authenticator;
      LogLevel := log_Level;
      Sniffing := IsSniffing |}).

End GetGeneral.

(** ** The apply sequence

    [ApplyConfig] also drives collaborators that the functions above do
    not touch.  Their calls are [Call]s; a call made by one of the
    functions above enters the same journal as [Executor e], so the
    journal keeps the order of everything an apply does. *)

Module config_rest.

(** [config.Sniffer], with opaque sniffer and domain lists. *)
Record Sniffer := mkSniffer {
  Enable : bool;
  Sniffers : string;
  ForceDomain : string;
  SkipDomain : string;
  ForceDnsMapping : bool;
  ParsePureIp : bool
}.

(** The sections of [config.Config] read only by [ApplyConfig] and the
    updaters below: [TLS.CustomTrustCert], [Users], [Rules], [SubRules],
    [Sniffer], [Hosts], [NTP], [Listeners], [Tunnels], [Experimental]. *)
Record Rest := mkRest {
  CustomTrustCert : list string;
  Users : list (string * string);
  Rules : list string;
  SubRules : list (string * list string);
  Sniffer_ : Sniffer;
  Hosts : string;
  NTP_ : config_more.NTP;
  Listeners : gmap string string;
  Tunnels : list string;
  Experimental_ : config_more.Experimental
}.

End config_rest.

Inductive Call :=
  | Executor (e : Event)
  | mux_Lock
  | mux_Unlock
  | OnSuspend
  | OnInnerLoading
  | OnRunning
  | ResetCertificate
  | AddCertificate (c : string) (err : option string)
  | SetAuthenticator (authenticator : option (list (string * string)))
  | UpdateProxies (proxies : list (string * adapter.Proxy))
                  (providers : list (string * provider.Provider))
  | UpdateRules (rules : list string) (subRules : list (string * list string))
                (ruleProviders : list (string * provider.Provider))
  | UpdateSniffer (dispatcher : option string)
  | SetDefaultHosts (tree : string)
  | ReCreateNTPService (service : NTPService)
  | ReCreateTun (tun : config.Tun)
  | ReCreateRedirToTun (ifaces : list string)
  | Setenv (key value : string)
  | PatchTunnel (tunnels : list string)
  | inner_New.

(** The process: the world of the functions above, the journal, whether
    [mux] is held, the environment and the NTP service. *)
Record Proc := mkProc {
  proc_world : World;
  journal : list Call;
  mux_held : bool;
  environ : gmap string string;
  ntp_service : option NTPService
}.

Inductive PResult (A : Type) :=
  | PDone (a : A) (s : Proc)
  | PExited (code : Z) (s : Proc).
Arguments PDone {A} a s.
Arguments PExited {A} code s.

Definition P (A : Type) : Type := Proc → PResult A.

#[global] Instance P_ret : MRet P := λ A a s, PDone a s.

#[global] Instance P_bind : MBind P := λ A B k m s,
  match m s with
  | PDone a s' => k a s'
  | PExited c s' => PExited c s'
  end.

Definition proc_of {A} (r : PResult A) : Proc :=
  match r with
  | PDone _ s => s
  | PExited _ s => s
  end.

(** A call into a collaborator, journalled. *)
Definition pcall (c : Call) : P unit := λ s,
  PDone tt {| proc_world := proc_world s; journal := journal s ++ [c];
              mux_held := mux_held s; environ := environ s;
              ntp_service := ntp_service s |}.

(** The process after one of the functions above took the world from [w]
    to [w']: the calls it added to the trace enter the journal. *)
Definition journalled (w w' : World) (s : Proc) : Proc :=
  {| proc_world := w';
     journal := journal s ++ (Executor <$> drop (length (trace w)) (trace w'));
     mux_held := mux_held s; environ := environ s;
     ntp_service := ntp_service s |}.

(** Runs one of the functions above inside the process. *)
Definition lift {A} (m : M A) : P A := λ s,
  match m (proc_world s) with
  | Done a w' => PDone a (journalled (proc_world s) w' s)
  | Exited c w' => PExited c (journalled (proc_world s) w' s)
  end.

Definition pwhen (b : bool) (m : P unit) : P unit := if b then m else mret tt.

(** [mux.Lock()] (the caller is the one that gets the lock) and
    [mux.Unlock()]. *)
Definition mux_lock : P unit := λ s,
  PDone tt {| proc_world := proc_world s; journal := journal s ++ [mux_Lock];
              mux_held := true; environ := environ s;
              ntp_service := ntp_service s |}.

Definition mux_unlock : P unit := λ s,
  PDone tt {| proc_world := proc_world s; journal := journal s ++ [mux_Unlock];
              mux_held := false; environ := environ s;
              ntp_service := ntp_service s |}.

Section Apply.

Variable CMFA : bool.
Variable GOOS : string.
Variable ParseAddrPort : string → option Z.
Variable SetTProxyIPTables_err : string → list string → Z → Z → option string.

(** [net.JoinHostPort] and [strconv.Itoa]. *)
Variable JoinHostPort : string → string → string.
Variable Itoa : Z → string.

(** The error [ca.AddCertificate] answers for a certificate. *)
Variable AddCertificate_err : string → option string.

(** [auth.NewAuthenticator]: the authenticator for the users, or nil. *)
Variable NewAuthenticator : list (string * string) → option (list (string * string)).

(** [SNI.NewSnifferDispatcher] and [SNI.NewCloseSnifferDispatcher]: the
    dispatcher and the error they return. *)
Variable NewSnifferDispatcher :
  string → string → string → bool → bool → option string * option string.
Variable NewCloseSnifferDispatcher : option string * option string.

(** The loop of [ApplyConfig] over [cfg.TLS.CustomTrustCert]. *)
Fixpoint addCertificates (certs : list string) : P unit :=
  match certs with
  | [] => mret tt
  | c :: rest =>
      let err := AddCertificate_err c in
      pcall (AddCertificate c err);;
      match err with
      | Some err => lift (call (Log WARNING "%s\nadd error: %s" [AStr c; AStr err]))
      | None => mret tt
      end;;
      addCertificates rest
  end.

(** [updateUsers]. *)
Definition updateUsers (users : list (string * string)) : P unit :=
  let authenticator := NewAuthenticator users in
  pcall (SetAuthenticator authenticator);;
  pwhen (bool_decide (authenticator ≠ None))
    (lift (call (Log INFO "Authentication of local server updated" []))).

(** [updateProxies]. *)
Definition updateProxies (proxies : list (string * adapter.Proxy))
    (providers : list (string * provider.Provider)) : P unit :=
  pcall (UpdateProxies proxies providers).

(** [updateRules]. *)
Definition updateRules (rules : list string)
    (subRules : list (string * list string))
    (ruleProviders : list (string * provider.Provider)) : P unit :=
  pcall (UpdateRules rules subRules ruleProviders).

(** [updateSniffer]. *)
Definition updateSniffer (sniffer : config_rest.Sniffer) : P unit :=
  if config_rest.Enable sniffer then
    let '(dispatcher, err) :=
      NewSnifferDispatcher (config_rest.Sniffers sniffer)
        (config_rest.ForceDomain sniffer) (config_rest.SkipDomain sniffer)
        (config_rest.ForceDnsMapping sniffer) (config_rest.ParsePureIp sniffer) in
    match err with
    | Some err => lift (call (Log WARNING "initial sniffer failed, err:%v" [AStr err]))
    | None => mret tt
    end;;
    pcall (UpdateSniffer dispatcher);;
    lift (call (Log INFO "Sniffer is loaded and working" []))
  else
    let '(dispatcher, err) := NewCloseSnifferDispatcher in
    match err with
    | Some err => lift (call (Log WARNING "initial sniffer failed, err:%v" [AStr err]))
    | None => mret tt
    end;;
    pcall (UpdateSniffer dispatcher);;
    lift (call (Log INFO "Sniffer is closed" [])).

(** [updateHosts]. *)
Definition updateHosts (tree : string) : P unit :=
  pcall (SetDefaultHosts tree).

(** [updateNTP] inside the process: the call, and the service it starts. *)
Definition updateNTP_step (c : config_more.NTP) : P unit := λ s,
  match updateNTP JoinHostPort Itoa c None with
  | Some service =>
      PDone tt {| proc_world := proc_world s;
                  journal := journal s ++ [ReCreateNTPService service];
                  mux_held := mux_held s; environ := environ s;
                  ntp_service := updateNTP JoinHostPort Itoa c (ntp_service s) |}
  | None => PDone tt s
  end.

(** [updateTun]; the argument is a pointer, [None] for nil. *)
Definition updateTun (general : option config.General) : P unit :=
  match general with
  | None => mret tt
  | Some general =>
      pcall (ReCreateTun (config.Tun_ general));;
      pcall (ReCreateRedirToTun (config.RedirectToTun (config.Tun_ general)))
  end.

(** [updateExperimental] inside the process: the environment it leaves,
    and one [Setenv] call per flag that is set. *)
Definition updateExperimental_step (c : config_more.Experimental) : P unit := λ s,
  PDone tt
    {| proc_world := proc_world s;
       journal := journal s
         ++ (if config_more.QUICGoDisableGSO c
             then [Setenv "QUIC_GO_DISABLE_GSO" (FormatBool true)] else [])
         ++ (if config_more.QUICGoDisableECN c
             then [Setenv "QUIC_GO_DISABLE_ECN" (FormatBool true)] else []);
       mux_held := mux_held s;
       environ := updateExperimental c (environ s);
       ntp_service := ntp_service s |}.

(** [updateTunnels]. *)
Definition updateTunnels (tunnels : list string) : P unit :=
  pcall (PatchTunnel tunnels).

(** [initInnerTcp]. *)
Definition initInnerTcp : P unit :=
  pcall inner_New.

(** [ApplyConfig] from [mux.Lock()] through [initInnerTcp()]: everything
    before the first provider phase.  The deferred [mux.Unlock()] has not
    run at this point, and does not run when the process exits. *)
Definition ApplyConfig_until_providers (cfg : config.Config)
    (rest : config_rest.Rest) (force : bool) : P unit :=
  mux_lock;;
  pcall OnSuspend;;
  pcall ResetCertificate;;
  addCertificates (config_rest.CustomTrustCert rest);;
  updateUsers (config_rest.Users rest);;
  updateProxies (config.Proxies cfg) (config.Providers cfg);;
  updateRules (config_rest.Rules rest) (config_rest.SubRules rest)
    (config.RuleProviders cfg);;
  updateSniffer (config_rest.Sniffer_ rest);;
  updateHosts (config_rest.Hosts rest);;
  lift (updateGeneral (config.General_ cfg));;
  updateNTP_step (config_rest.NTP_ rest);;
  lift (updateDNS (config.DNS_ cfg) (config.RuleProviders cfg)
          (config.IPv6 (config.General_ cfg)));;
  lift (updateListeners CMFA (config.General_ cfg)
          (config_rest.Listeners rest) force);;
  lift (updateIPTables GOOS ParseAddrPort SetTProxyIPTables_err cfg);;
  updateTun (Some (config.General_ cfg));;
  updateExperimental_step (config_rest.Experimental_ rest);;
  updateTunnels (config_rest.Tunnels rest);;
  pcall OnInnerLoading;;
  initInnerTcp.

End Apply.

(** A call of the apply sequence that comes after [updateIPTables]. *)
Definition after_iptables (c : Call) : bool :=
  match c with
  | ReCreateTun _ | ReCreateRedirToTun _ | Setenv _ _ | PatchTunnel _
  | OnInnerLoading | inner_New | OnRunning | mux_Unlock => true
  | _ => false
  end.

(** A call to [ca.AddCertificate]. *)
Definition is_add_certificate (c : Call) : bool :=
  match c with
  | AddCertificate _ _ => true
  | _ => false
  end.

(** A process that has done nothing yet. *)
Definition proc0 : Proc :=
  {| proc_world := world0; journal := []; mux_held := false;
     environ := ∅; ntp_service := None |}.

Definition rest0 : config_rest.Rest :=
  {| config_rest.CustomTrustCert := ["bad-pem"; "good-pem"];
     config_rest.Users := [];
     config_rest.Rules := ["MATCH,DIRECT"];
     config_rest.SubRules := [];
     config_rest.Sniffer_ :=
       {| config_rest.Enable := false; config_rest.Sniffers := "";
          config_rest.ForceDomain := ""; config_rest.SkipDomain := "";
          config_rest.ForceDnsMapping := false;
          config_rest.ParsePureIp := false |};
     config_rest.Hosts := "";
     config_rest.NTP_ :=
       {| config_more.Enable := false; config_more.Server := "time.apple.com";
          config_more.Port := 123; config_more.Interval := 30;
          config_more.DialerProxy := ""; config_more.WriteToSystem := false |};
     config_rest.Listeners := ∅;
     config_rest.Tunnels := [];
     config_rest.Experimental_ :=
       {| config_more.QUICGoDisableGSO := true;
          config_more.QUICGoDisableECN := false |} |}.

(** Stand-ins for the collaborators of the apply sequence. *)
Definition addcert0 (c : string) : option string :=
  if bool_decide (c = "bad-pem") then Some "x509: malformed certificate" else None.

Definition newauth0 (users : list (string * string))
    : option (list (string * string)) :=
  match users with
  | [] => None
  | _ => Some users
  end.

Definition sniffer0 (_ _ _ : string) (_ _ : bool) : option string * option string :=
  (Some "dispatcher", None).

Definition join0 (host port : string) : string := host +:+ ":" +:+ port.

Definition itoa0 (_ : Z) : string := "123".

(** What a step of the apply sequence does to the process: it returns, or
    ends the process with status 2 when [exits]; it keeps [mux] and the
    environment as they are; and the calls it adds to the journal satisfy
    [R]. *)
Definition journals (exits : bool) (R : list Call → Prop) (m : P unit) : Prop :=
  ∀ s, ∃ s', m s = (if exits then PExited 2 s' else PDone tt s')
    ∧ mux_held s' = mux_held s ∧ environ s' = environ s
    ∧ ∃ j, journal s' = journal s ++ j ∧ R j.

(** Calls that all come before [updateIPTables] ends. *)
Definition calm (j : list Call) : Prop :=
  Forall (λ c, after_iptables c = false) j.

(** The journal entries of the certificate loop: for each certificate, in
    order, the [AddCertificate] call and, when it failed, the warning. *)
Definition certificate_calls (AddCertificate_err : string → option string)
    (certs : list string) : list Call :=
  c ← certs;
  AddCertificate c (AddCertificate_err c)
  :: match AddCertificate_err c with
     | Some err =>
         [Executor (Log WARNING "%s\nadd error: %s" [AStr c; AStr err])]
     | None => []
     end.

(** * Properties *)

(** ** The listener reconciler *)

(** C4. Without [force], [updateListeners] makes the generic
    [PatchInboundListeners] call and returns: the call trace grows by that
    one call, so no protocol listener is recreated, and the allow-LAN flag,
    the auth-skip prefixes and the bind address keep their values (as does
    every other variable). *)
Theorem updateListeners_light_patch_only
    (CMFA : bool) (general : config.General) (listeners : gmap string string)
    (w : World) :
  updateListeners CMFA general listeners false w
    = Done tt (with_trace (λ t, t ++ [PatchInboundListeners listeners true]) w)
  ∧ let w' := world_of (updateListeners CMFA general listeners false w) in
    trace w' = trace w ++ [PatchInboundListeners listeners true]
    ∧ allowLan (listener w') = allowLan (listener w)
    ∧ skipAuthPrefixes (listener w') = skipAuthPrefixes (listener w)
    ∧ bindAddress (listener w') = bindAddress (listener w).
Proof.
  unfold updateListeners. run_M. repeat split.
Qed.

(** C5. On [force], [updateListeners] sets the allow-LAN flag, the auth-skip
    prefixes and the bind address, then recreates each protocol listener
    once, in the order HTTP, SOCKS, Redir, auto-redir (unless the platform
    is CMFA), TProxy, Mixed, Shadowsocks, Vmess, Tuic, each with its
    configured port or spec; the three settings hold the configured values
    afterwards. *)
Theorem updateListeners_force_recreates_in_order
    (CMFA : bool) (general : config.General) (listeners : gmap string string)
    (w : World) :
  ∃ w', updateListeners CMFA general listeners true w = Done tt w'
    ∧ trace w' = trace w ++ forced_listener_calls CMFA general listeners
    ∧ listener w' =
        {| allowLan := config.AllowLan general;
           bindAddress := config.BindAddress general;
           skipAuthPrefixes := config.SkipAuthPrefixes general |}
    ∧ resolver w' = resolver w ∧ dialer w' = dialer w
    ∧ selection w' = selection w.
Proof.
  unfold updateListeners, forced_listener_calls.
  destruct CMFA; run_M; (eexists; split; [reflexivity|]); run_M;
    rewrite <- ?(assoc_L (++)); cbn [app]; auto.
Qed.

(** ** The DNS stack builder *)

(** C7. With DNS disabled, [updateDNS] sets the default resolver, the
    default host mapper and the default local server to nil and recreates
    the DNS server with an empty address and nil resolver and mapper; this
    is all it does (the old mapper and its cache are gone, nothing is
    built, no other variable changes). *)
Theorem updateDNS_disabled_clears
    (c : config.DNS) (ruleProvider : list (string * provider.Provider))
    (generalIPv6 : bool) (w : World) :
  config.Enable c = false →
  updateDNS c ruleProvider generalIPv6 w =
    Done tt
      {| resolver :=
           {| DefaultResolver := None;
              DefaultHostMapper := None;
              DefaultLocalServer := None;
              ProxyServerHostResolver := ProxyServerHostResolver (resolver w);
              DisableIPv6 := DisableIPv6 (resolver w) |};
         listener := listener w;
         dialer := dialer w;
         selection := selection w;
         trace := trace w ++ [ReCreateServer "" None None] |}.
Proof.
  intros Hoff. unfold updateDNS. rewrite Hoff. run_M. reflexivity.
Qed.

Lemma updateDNS_disabled_clears_witness :
  config.Enable (dns0 false "" []) = false
  ∧ updateDNS (dns0 false "" []) [] true world1 =
      Done tt
        {| resolver :=
             {| DefaultResolver := None;
                DefaultHostMapper := None;
                DefaultLocalServer := None;
                ProxyServerHostResolver := None;
                DisableIPv6 := false |};
           listener := listener world1;
           dialer := dialer world1;
           selection := selection world1;
           trace := [ReCreateServer "" None None] |}.
Proof.
  split; [reflexivity|].
  apply (updateDNS_disabled_clears (dns0 false "" []) [] true world1).
  reflexivity.
Defined.

(** What [updateDNS] leaves behind when DNS is enabled, slot by slot. *)
Lemma updateDNS_enabled
    (c : config.DNS) (ruleProvider : list (string * provider.Provider))
    (generalIPv6 : bool) (w : World) :
  config.Enable c = true →
  let cfg := updateDNS_cfg c ruleProvider generalIPv6 in
  let r := dns.NewResolver cfg in
  let pr := dns.NewProxyServerHostResolver r in
  let m := match DefaultHostMapper (resolver w) with
           | Some old => dns.PatchFrom (dns.NewEnhancer cfg) old
           | None => dns.NewEnhancer cfg
           end in
  updateDNS c ruleProvider generalIPv6 w =
    Done tt
      {| resolver :=
           {| DefaultResolver := Some r;
              DefaultHostMapper := Some m;
              DefaultLocalServer := Some (dns.NewLocalServer r m);
              ProxyServerHostResolver :=
                if dns.Invalid pr then Some pr
                else ProxyServerHostResolver (resolver w);
              DisableIPv6 := DisableIPv6 (resolver w) |};
         listener := listener w;
         dialer := dialer w;
         selection := selection w;
         trace := trace w ++ [ReCreateServer (config.Listen c) (Some r) (Some m)] |}.
Proof.
  intros Hon. unfold updateDNS. rewrite Hon. run_M.
  destruct (dns.Invalid _); reflexivity.
Qed.

(** [PatchFrom] keeps every entry of the old cache. *)
Lemma PatchFrom_keeps (h o : dns.ResolverEnhancer) (host ip : string) :
  dns.mapping o !! host = Some ip →
  dns.mapping (dns.PatchFrom h o) !! host = Some ip.
Proof.
  intros Hold. cbn. apply lookup_union_Some_l, Hold.
Qed.

(** C3. With DNS enabled and a previous host mapper [old], the host mapper
    [updateDNS] installs is the new enhancer after [PatchFrom old]: the
    copy is made before the assignment, so the installed mapper (the one
    the local server and the DNS server get as well) holds every entry the
    old cache held. *)
Theorem updateDNS_carries_cache_over
    (c : config.DNS) (ruleProvider : list (string * provider.Provider))
    (generalIPv6 : bool) (w : World) (old : dns.ResolverEnhancer) :
  config.Enable c = true →
  DefaultHostMapper (resolver w) = Some old →
  let w' := world_of (updateDNS c ruleProvider generalIPv6 w) in
  let m := dns.PatchFrom
             (dns.NewEnhancer (updateDNS_cfg c ruleProvider generalIPv6)) old in
  DefaultHostMapper (resolver w') = Some m
  ∧ dns.ls_mapper <$> DefaultLocalServer (resolver w') = Some m
  ∧ (∃ r, last (trace w') = Some (ReCreateServer (config.Listen c) (Some r) (Some m)))
  ∧ ∀ host ip, dns.mapping old !! host = Some ip →
               dns.mapping m !! host = Some ip.
Proof.
  intros Hon Hold w' m. subst w'.
  rewrite (updateDNS_enabled c ruleProvider generalIPv6 w Hon), Hold.
  cbn [world_of resolver DefaultHostMapper DefaultLocalServer trace].
  split; [reflexivity|]. split; [reflexivity|]. split.
  - eexists. apply last_snoc.
  - intros host ip. apply PatchFrom_keeps.
Qed.

Lemma updateDNS_carries_cache_over_witness :
  config.Enable (dns0 true "0.0.0.0:1053" []) = true
  ∧ DefaultHostMapper (resolver world1) = Some enhancer1
  ∧ ∀ host ip, dns.mapping enhancer1 !! host = Some ip →
      ∃ m, DefaultHostMapper
             (resolver (world_of (updateDNS (dns0 true "0.0.0.0:1053" []) [] true world1)))
           = Some m
           ∧ dns.mapping m !! host = Some ip.
Proof.
  split; [reflexivity|]. split; [reflexivity|].
  intros host ip Hold.
  destruct (updateDNS_carries_cache_over (dns0 true "0.0.0.0:1053" []) [] true
              world1 enhancer1 eq_refl eq_refl) as (Hm & _ & _ & Hkeep).
  eexists. split; [exact Hm|]. apply Hkeep, Hold.
Defined.

(** Two applies in a row, DNS enabled in both: an entry the host mapper
    holds after the first is still there after the second. *)
Corollary updateDNS_twice_keeps_entries
    (c1 c2 : config.DNS) (rp1 rp2 : list (string * provider.Provider))
    (v1 v2 : bool) (w : World) (host ip : string) :
  config.Enable c1 = true →
  config.Enable c2 = true →
  let w1 := world_of (updateDNS c1 rp1 v1 w) in
  let w2 := world_of (updateDNS c2 rp2 v2 w1) in
  (∃ m1, DefaultHostMapper (resolver w1) = Some m1
         ∧ dns.mapping m1 !! host = Some ip) →
  ∃ m2, DefaultHostMapper (resolver w2) = Some m2
        ∧ dns.mapping m2 !! host = Some ip.
Proof.
  intros _ Hon2 w1 w2 (m1 & Hm1 & Hip). subst w2.
  rewrite (updateDNS_enabled c2 rp2 v2 w1 Hon2), Hm1.
  eexists. split; [reflexivity|]. apply PatchFrom_keeps, Hip.
Qed.

(** C8. With DNS enabled, the proxy-server-name resolver [pr] built from
    the new resolver is stored in [ProxyServerHostResolver] exactly when
    [pr.Invalid()] answers true, which is when proxy-server name servers
    are configured; otherwise the variable keeps its prior value. *)
Theorem updateDNS_proxy_server_resolver_gate
    (c : config.DNS) (ruleProvider : list (string * provider.Provider))
    (generalIPv6 : bool) (w : World) :
  config.Enable c = true →
  let w' := world_of (updateDNS c ruleProvider generalIPv6 w) in
  let pr := dns.NewProxyServerHostResolver
              (dns.NewResolver (updateDNS_cfg c ruleProvider generalIPv6)) in
  (dns.Invalid pr = true ↔ config.ProxyServerNameserver c ≠ [])
  ∧ (dns.Invalid pr = true →
       ProxyServerHostResolver (resolver w') = Some pr)
  ∧ (dns.Invalid pr = false →
       ProxyServerHostResolver (resolver w') = ProxyServerHostResolver (resolver w)).
Proof.
  intros Hon w' pr. subst w'.
  rewrite (updateDNS_enabled c ruleProvider generalIPv6 w Hon).
  cbn [world_of resolver ProxyServerHostResolver]. fold pr.
  split; [|split].
  - unfold pr, dns.Invalid. cbn.
    destruct (config.ProxyServerNameserver c); split; congruence.
  - intros ->. reflexivity.
  - intros ->. reflexivity.
Qed.

Lemma updateDNS_proxy_server_resolver_gate_witness :
  config.Enable (dns0 true "0.0.0.0:1053" ["8.8.8.8"]) = true
  ∧ (dns.main <$> ProxyServerHostResolver
       (resolver (world_of
          (updateDNS (dns0 true "0.0.0.0:1053" ["8.8.8.8"]) [] true world0))))
    = Some ["8.8.8.8"].
Proof.
  split; [reflexivity|].
  destruct (updateDNS_proxy_server_resolver_gate
              (dns0 true "0.0.0.0:1053" ["8.8.8.8"]) [] true world0 eq_refl)
    as (_ & Hset & _).
  rewrite (Hset eq_refl). reflexivity.
Defined.

(** ** General settings *)

(** C10. [updateGeneral] turns concurrent TCP dialing on when the
    configuration asks for it; when the flag is false it makes no call to
    [dialer.SetTcpConcurrent] at all, so whatever the dialer's setting was,
    on or off, it still is. *)
Theorem updateGeneral_never_disables_tcp_concurrent
    (general : config.General) (w : World) :
  let w' := world_of (updateGeneral general w) in
  (config.TCPConcurrent general = true →
     tcpConcurrent (dialer w') = true
     ∧ ∃ t1 t2, trace w' = trace w ++ t1 ++ SetTcpConcurrent true :: t2)
  ∧ (config.TCPConcurrent general = false →
       tcpConcurrent (dialer w') = tcpConcurrent (dialer w)
       ∧ ∃ t, trace w' = trace w ++ t
              ∧ Forall (λ e, sets_tcp_concurrent e = false) t).
Proof.
  unfold updateGeneral. split; intros ->; destruct (bool_decide _); run_M.
  1,2: split; [reflexivity|]; rewrite <- !(assoc_L (++)); cbn [app];
       exists [SetMode (config.Mode general);
               SetFindProcessMode (config.FindProcessMode general)];
       eexists; reflexivity.
  1,2: split; [reflexivity|]; rewrite <- !(assoc_L (++)); cbn [app];
       (eexists; split; [reflexivity|]); repeat constructor.
Qed.

(** A dialer that dials concurrently keeps doing so after an apply whose
    configuration has the flag off. *)
Example updateGeneral_leaves_tcp_concurrent_on :
  tcpConcurrent (dialer (world_of
    (updateGeneral general0
       (with_dialer (λ d, {| tcpConcurrent := true;
                              DefaultInterface := DefaultInterface d;
                              DefaultRoutingMark := DefaultRoutingMark d;
                              UnifiedDelay := UnifiedDelay d;
                              StoreSelected := StoreSelected d |}) world0))))
  = true.
Proof. reflexivity. Qed.


(** ** The privileged network rule installer *)

(** Cleanup comes first, whatever the platform and the configuration. *)
Lemma updateIPTables_cleanup_first
    (GOOS : string) (ParseAddrPort : string → option Z)
    (SetTProxyIPTables_err : string → list string → Z → Z → option string)
    (cfg : config.Config) (w : World) :
  ∃ t, trace (world_of
         (updateIPTables GOOS ParseAddrPort SetTProxyIPTables_err cfg w))
       = trace w ++ CleanupTProxyIPTables :: t.
Proof.
  unfold updateIPTables, updateIPTables_deferred_scope, tproxy_SetTProxyIPTables.
  repeat (run_M; next_test; cbn [orb]); run_M;
    rewrite <- ?(assoc_L (++)); cbn [app]; eexists; reflexivity.
Qed.

(** C1. On Linux with iptables enabled, [updateIPTables] runs the cleanup
    first; if then tun is enabled, or the transparent-proxy port is zero,
    or DNS is disabled, or the DNS listen address does not parse, or the
    installation call fails, the process exits with status 2, and after the
    cleanup no call installed rules (the installation call was not made, or
    it answered an error). *)
Theorem updateIPTables_fatal_exit
    (GOOS : string) (ParseAddrPort : string → option Z)
    (SetTProxyIPTables_err : string → list string → Z → Z → option string)
    (cfg : config.Config) (w : World) :
  GOOS = "linux" →
  config.IPT_Enable (config.IPTables_ cfg) = true →
  iptables_fatal ParseAddrPort SetTProxyIPTables_err cfg →
  ∃ w' t,
    updateIPTables GOOS ParseAddrPort SetTProxyIPTables_err cfg w = Exited 2 w'
    ∧ trace w' = trace w ++ CleanupTProxyIPTables :: t
    ∧ Forall (λ e, installs_rules e = false) t.
Proof.
  intros -> Hen Hfatal.
  unfold updateIPTables, updateIPTables_deferred_scope, tproxy_SetTProxyIPTables.
  rewrite Hen. rewrite bool_decide_eq_false_2 by (intros H; by apply H).
  cbn [orb negb].
  destruct (config.Tun_Enable _) eqn:Htun.
  { run_M. do 2 eexists. rewrite <- ?(assoc_L (++)). cbn [app].
    split; [reflexivity|]. split; [reflexivity|]. repeat constructor. }
  destruct (bool_decide (config.TProxyPort _ = 0)) eqn:Hport.
  { run_M. do 2 eexists. rewrite <- ?(assoc_L (++)). cbn [app].
    split; [reflexivity|]. split; [reflexivity|]. repeat constructor. }
  destruct (config.Enable _) eqn:Hdns; cbn [negb].
  2:{ run_M. do 2 eexists. rewrite <- ?(assoc_L (++)). cbn [app].
      split; [reflexivity|]. split; [reflexivity|]. repeat constructor. }
  destruct (ParseAddrPort _) as [dnsPort|] eqn:Hparse.
  2:{ run_M. do 2 eexists. rewrite <- ?(assoc_L (++)). cbn [app].
      split; [reflexivity|]. split; [reflexivity|]. repeat constructor. }
  fold (iptables_ifname cfg).
  destruct (SetTProxyIPTables_err _ _ _ _) as [err|] eqn:Herr.
  { run_M. next_test; run_M;
      do 2 eexists; rewrite <- ?(assoc_L (++)); cbn [app];
      (split; [reflexivity|]); (split; [reflexivity|]); repeat constructor. }
  exfalso. apply bool_decide_eq_false in Hport.
  destruct Hfatal as [?|[?|[?|[?|(p & e & Hp & He)]]]]; congruence.
Qed.

Lemma updateIPTables_fatal_exit_witness :
  "linux" = "linux"
  ∧ config.IPT_Enable (config.IPTables_ (config0 true 7893 true "0.0.0.0:1053")) = true
  ∧ iptables_fatal parse0 install_ok (config0 true 7893 true "0.0.0.0:1053")
  ∧ ∃ w' t,
      updateIPTables "linux" parse0 install_ok
        (config0 true 7893 true "0.0.0.0:1053") world0 = Exited 2 w'
      ∧ trace w' = trace world0 ++ CleanupTProxyIPTables :: t
      ∧ Forall (λ e, installs_rules e = false) t.
Proof.
  split; [reflexivity|]. split; [reflexivity|].
  split; [left; reflexivity|].
  apply (updateIPTables_fatal_exit "linux" parse0 install_ok
           (config0 true 7893 true "0.0.0.0:1053") world0);
    [reflexivity | reflexivity | left; reflexivity].
Defined.

(** The five fatal conditions, one run each. *)
Example updateIPTables_tun_enabled :
  updateIPTables "linux" parse0 install_ok
    (config0 true 7893 true "0.0.0.0:1053") world0
  = Exited 2 (with_trace (λ _,
      [ CleanupTProxyIPTables;
        Log ERROR "[IPTABLES] setting iptables failed: %s"
          [AStr "when tun is enabled, iptables cannot be set automatically"] ])
      world0).
Proof. reflexivity. Qed.

Example updateIPTables_zero_port :
  updateIPTables "linux" parse0 install_ok
    (config0 false 0 true "0.0.0.0:1053") world0
  = Exited 2 (with_trace (λ _,
      [ CleanupTProxyIPTables;
        Log ERROR "[IPTABLES] setting iptables failed: %s"
          [AStr "tproxy-port must be greater than zero"] ])
      world0).
Proof. reflexivity. Qed.

Example updateIPTables_dns_disabled :
  updateIPTables "linux" parse0 install_ok
    (config0 false 7893 false "0.0.0.0:1053") world0
  = Exited 2 (with_trace (λ _,
      [ CleanupTProxyIPTables;
        Log ERROR "[IPTABLES] setting iptables failed: %s"
          [AStr "DNS server must be enable"] ])
      world0).
Proof. reflexivity. Qed.

Example updateIPTables_bad_listen :
  updateIPTables "linux" parse0 install_ok
    (config0 false 7893 true "nonsense") world0
  = Exited 2 (with_trace (λ _,
      [ CleanupTProxyIPTables;
        Log ERROR "[IPTABLES] setting iptables failed: %s"
          [AStr "DNS server must be correct"] ])
      world0).
Proof. reflexivity. Qed.

Example updateIPTables_install_fails :
  trace (world_of (updateIPTables "linux" parse0 install_fails
    (config0 false 7893 true "0.0.0.0:1053") world0))
  = [ CleanupTProxyIPTables;
      SetTProxyIPTables "lo" ["10.0.0.0/8"] 7893 1053 (Some "exit status 4");
      Log ERROR "[IPTABLES] setting iptables failed: %s" [AStr "exit status 4"] ].
Proof. reflexivity. Qed.

(** The good case, for contrast: rules installed, routing mark defaulted,
    no exit. *)
Example updateIPTables_installs :
  updateIPTables "linux" parse0 install_ok
    (config0 false 7893 true "0.0.0.0:1053") world0
  = Done tt
      (with_dialer (dialer_pkg.set_DefaultRoutingMark 2158)
        (with_trace (λ _,
          [ CleanupTProxyIPTables;
            SetTProxyIPTables "lo" ["10.0.0.0/8"] 7893 1053 None;
            Log INFO "[IPTABLES] Setting iptables completed" [] ])
         world0)).
Proof. reflexivity. Qed.

(** ** Selected-proxy memory *)

Lemma remembered_selections_cons (mapping : gmap string string)
    (name : string) (proxy : adapter.Proxy)
    (rest : list (string * adapter.Proxy)) :
  remembered_selections mapping ((name, proxy) :: rest) =
    match proxy with
    | adapter.AdapterProxy (adapter.SelectAble group) =>
        match mapping !! name with
        | Some selected => (group, selected) :: remembered_selections mapping rest
        | None => remembered_selections mapping rest
        end
    | _ => remembered_selections mapping rest
    end.
Proof.
  unfold remembered_selections. cbn.
  destruct proxy as [[group|]|]; [|done..].
  by destruct (mapping !! name).
Qed.

(** The store after re-applying a list of selections, one after the other. *)
Lemma patchSelectGroup_range_spec (mapping : gmap string string)
    (proxies : list (string * adapter.Proxy)) (w : World) :
  patchSelectGroup_range mapping proxies w =
    Done tt
      {| resolver := resolver w; listener := listener w; dialer := dialer w;
         selection :=
           foldl (λ s gs, <[gs.1 := gs.2]> s) (selection w)
                 (remembered_selections mapping proxies);
         trace :=
           trace w ++ map (λ gs, ForceSet gs.1 gs.2)
                          (remembered_selections mapping proxies) |}.
Proof.
  revert w. induction proxies as [|[name proxy] rest IH]; intros w.
  - cbn. rewrite app_nil_r. by destruct w.
  - cbn [patchSelectGroup_range]. unfold mbind, M_bind.
    rewrite remembered_selections_cons.
    destruct proxy as [[group|]|]; cbn [patchSelectGroup_entry];
      [destruct (mapping !! name) as [selected|]|..];
      run_M; rewrite IH; [|done..].
    cbn. by rewrite <- (assoc_L (++)).
Qed.

Lemma elem_of_remembered_selections (mapping : gmap string string)
    (proxies : list (string * adapter.Proxy)) (group : positive) (selected : string) :
  (group, selected) ∈ remembered_selections mapping proxies
  ↔ ∃ name, (name, adapter.AdapterProxy (adapter.SelectAble group)) ∈ proxies
            ∧ mapping !! name = Some selected.
Proof.
  unfold remembered_selections. rewrite list_elem_of_omap. split.
  - intros ([name proxy] & Hin & Hsel). cbn in Hsel.
    destruct proxy as [[g|]|]; try discriminate.
    destruct (mapping !! name) as [s|] eqn:Hm; [|discriminate].
    cbn in Hsel. injection Hsel as <- <-. eauto.
  - intros (name & Hin & Hm). eexists. split; [exact Hin|].
    cbn. by rewrite Hm.
Qed.

Lemma foldl_insert_absent (rem : list (positive * string))
    (s : gmap positive string) (group : positive) :
  (∀ selected, (group, selected) ∉ rem) →
  foldl (λ s gs, <[gs.1 := gs.2]> s) s rem !! group = s !! group.
Proof.
  revert s. induction rem as [|[g sel] rest IH]; intros s Hno; [done|].
  cbn. rewrite IH.
  - apply lookup_insert_ne. intros ->. apply (Hno sel). left.
  - intros sel' Hin. apply (Hno sel'). by right.
Qed.

Lemma foldl_insert_agreed (rem : list (positive * string))
    (s : gmap positive string) (group : positive) (selected : string) :
  (group, selected) ∈ rem →
  (∀ selected', (group, selected') ∈ rem → selected' = selected) →
  foldl (λ s gs, <[gs.1 := gs.2]> s) s rem !! group = Some selected.
Proof.
  revert s. induction rem as [|[g sel] rest IH]; intros s Hin Hagree.
  - by apply elem_of_nil in Hin.
  - cbn. destruct (decide ((group, selected) ∈ rest)) as [Hrest|Hrest].
    + apply IH; [done|]. intros sel' Hin'. apply Hagree. by right.
    + apply elem_of_cons in Hin as [[= <- <-]|]; [|done].
      rewrite foldl_insert_absent.
      * apply lookup_insert_eq.
      * intros sel' Hin'. assert (sel' = selected) as ->; [|done].
        apply Hagree. by right.
Qed.

(** C9. With selection persistence on, [updateProfile] calls [ForceSet]
    with the remembered member on every proxy that is a selector-capable
    group and whose name is in the persisted map, and on no other: such a
    group's active selection is the remembered one afterwards (given that
    the persisted entries reaching one group object agree, as they do when
    every name has its own object), and a group no such entry reaches keeps
    its selection. *)
Theorem updateProfile_reapplies_selections
    (mapping : gmap string string) (cfg : config.Config) (w : World) :
  config.StoreSelected (config.Profile_ cfg) = true →
  let w' := world_of (updateProfile (Some mapping) cfg w) in
  trace w' = trace w ++ map (λ gs, ForceSet gs.1 gs.2)
               (remembered_selections mapping (config.Proxies cfg))
  ∧ (∀ name group selected,
       (name, adapter.AdapterProxy (adapter.SelectAble group)) ∈ config.Proxies cfg →
       mapping !! name = Some selected →
       (∀ name' selected',
          (name', adapter.AdapterProxy (adapter.SelectAble group)) ∈ config.Proxies cfg →
          mapping !! name' = Some selected' → selected' = selected) →
       selection w' !! group = Some selected)
  ∧ (∀ group,
       (∀ name,
          (name, adapter.AdapterProxy (adapter.SelectAble group)) ∈ config.Proxies cfg →
          mapping !! name = None) →
       selection w' !! group = selection w !! group).
Proof.
  intros Hon w'. subst w'. unfold updateProfile, patchSelectGroup.
  rewrite Hon. run_M. rewrite patchSelectGroup_range_spec. run_M.
  split; [reflexivity|]. split.
  - intros name group selected Hin Hm Hagree. apply foldl_insert_agreed.
    + apply elem_of_remembered_selections. eauto.
    + intros sel' (name' & Hin' & Hm')%elem_of_remembered_selections. eauto.
  - intros group Hno. apply foldl_insert_absent.
    intros sel (name & Hin & Hm)%elem_of_remembered_selections.
    specialize (Hno name Hin). congruence.
Qed.

Lemma updateProfile_reapplies_selections_witness :
  config.StoreSelected
    (config.Profile_ (config0 false 7893 true "0.0.0.0:1053")) = true
  ∧ selection (world_of
      (updateProfile (Some selected0)
         (config0 false 7893 true "0.0.0.0:1053") world0)) !! 1%positive
    = Some "NodeA".
Proof.
  split; [reflexivity|].
  destruct (updateProfile_reapplies_selections selected0
              (config0 false 7893 true "0.0.0.0:1053") world0 eq_refl)
    as (_ & Hset & _).
  apply (Hset "Auto" 1%positive "NodeA").
  - apply list_elem_of_here.
  - reflexivity.
  - intros name' selected' Hin Hm.
    apply elem_of_cons in Hin as [[= ->]|Hin]; [by injection Hm|].
    apply elem_of_cons in Hin as [[=]|Hin].
    apply elem_of_cons in Hin as [[=]|Hin].
    by apply elem_of_nil in Hin.
Defined.

(** The scenario run: "Auto" gets "NodeA" back, "Manual" (no entry) and
    the plain proxy "NodeA" get no call. *)
Example updateProfile_scenario :
  trace (world_of (updateProfile (Some selected0)
           (config0 false 7893 true "0.0.0.0:1053") world0))
  = [ForceSet 1%positive "NodeA"].
Proof. reflexivity. Qed.

(** Nothing is re-applied when persistence is off or the cache file has no
    selected map. *)
Lemma updateProfile_nothing_to_apply
    (SelectedMap : option (gmap string string)) (cfg : config.Config) (w : World) :
  config.StoreSelected (config.Profile_ cfg) = false ∨ SelectedMap = None →
  updateProfile SelectedMap cfg w =
    Done tt (with_dialer
      (dialer_pkg.set_StoreSelected (config.StoreSelected (config.Profile_ cfg))) w).
Proof.
  unfold updateProfile, patchSelectGroup.
  intros [-> | ->]; [|destruct (config.StoreSelected _)]; reflexivity.
Qed.

(** ** The provider phases *)

Section PhaseAccounting.

Variable concurrentCount : nat.
Variable ph : Phase.

Lemma balanced_start (providers : list (string * provider.Provider)) (w : World) :
  balanced concurrentCount (start providers w).
Proof. repeat split; cbn; lia. Qed.

Lemma balanced_step (r r' : Run) :
  balanced concurrentCount r → step concurrentCount ph r r' →
  balanced concurrentCount r'.
Proof.
  intros (Hwg & Hch & Hcap & Hpend) Hstep.
  destruct Hstep; unfold balanced; count_goroutines;
    try (repeat split; (lia || done)).
  destruct (waits ph); repeat split; (lia || done).
Qed.

Lemma balanced_reachable (providers : list (string * provider.Provider))
    (w : World) (r : Run) :
  reachable concurrentCount ph providers w r → balanced concurrentCount r.
Proof.
  unfold reachable. revert r.
  apply (rtc_ind_r (R := step concurrentCount ph)
           (balanced concurrentCount) (start providers w));
    [apply balanced_start|].
  intros r1 r2 _ Hstep Hbal. by apply (balanced_step r1).
Qed.

Lemma in_flight_le_slots (gs : list (provider.Provider * GoPc)) :
  (length (filter (λ g, g.2 = InTask) gs)
   ≤ length (filter (λ g, holds_slot g = true) gs))%nat.
Proof.
  induction gs as [|[p g] gs IH]; [done|].
  rewrite !filter_cons. destruct g; cbn; repeat case_decide; cbn; (done || lia).
Qed.

(** At most [concurrentCount] tasks are in flight, in every phase. *)
Lemma phase_in_flight_bounded (providers : list (string * provider.Provider))
    (w : World) (r : Run) :
  reachable concurrentCount ph providers w r →
  (in_flight r ≤ concurrentCount)%nat.
Proof.
  intros (Hwg & Hch & Hcap & _)%balanced_reachable.
  unfold in_flight. pose proof (in_flight_le_slots (goroutines r)). lia.
Qed.


(** A goroutine can always take its next step. *)
Lemma goroutine_can_step (r : Run) :
  balanced concurrentCount r → goroutines r ≠ [] →
  ∃ r', step concurrentCount ph r r'.
Proof.
  destruct r as [m ps n c [|[p g] gs] w]; [done|].
  intros (Hwg & Hch & _) _. destruct g.
  - eexists. apply (step_task _ _ m ps n c [] p gs w).
  - count_goroutines. destruct c as [|c]; [lia|].
    eexists. apply (step_recv _ _ m ps n c [] p gs w).
  - count_goroutines. destruct n as [|n]; [lia|].
    eexists. apply (step_done _ _ m ps n c [] p gs w).
Qed.

(** No deadlock: unless the capacity is zero, a phase that is not finished
    can take a step. *)
Lemma phase_progress (r : Run) :
  (0 < concurrentCount)%nat →
  balanced concurrentCount r →
  finished r ∨ ∃ r', step concurrentCount ph r r'.
Proof.
  intros Hcap Hbal.
  destruct (decide (goroutines r = [])) as [Hgs|Hgs];
    [|right; by apply goroutine_can_step].
  destruct Hbal as (Hwg & Hch & _ & Hpend).
  destruct r as [m ps n c gs w]. cbn in *. subst gs. cbn in *.
  destruct m; cbn in *.
  - right. destruct ps as [|p ps].
    + eexists. apply step_range_end.
    + destruct (launches ph p) eqn:Hl; eexists;
        [by apply step_enter | by apply step_skip].
  - right. eexists. apply step_add.
  - right. eexists. apply step_send. lia.
  - right. eexists. apply step_go.
  - right. subst n. eexists. apply step_wait.
  - left. done.
Qed.

(** Every step lowers what remains: all runs are finite. *)
Lemma step_decreases (r r' : Run) :
  step concurrentCount ph r r' → (remaining r' < remaining r)%nat.
Proof.
  intros Hstep. destruct Hstep; unfold remaining;
    cbn [pending pc goroutines pc_weight length];
    rewrite ?sum_list_with_app; try destruct (waits ph); cbn; lia.
Qed.

(** With room for at least one task, a phase runs to the end from wherever
    it is: the launching function returns and every goroutine finishes. *)
Lemma phase_completes (r : Run) :
  (0 < concurrentCount)%nat →
  balanced concurrentCount r →
  ∃ r', rtc (step concurrentCount ph) r r' ∧ finished r'.
Proof.
  intros Hcap.
  remember (S (remaining r)) as k eqn:Hk.
  assert (remaining r < k)%nat as Hlt by lia. clear Hk.
  revert r Hlt. induction k as [|k IH]; intros r Hlt Hbal; [lia|].
  destruct (phase_progress r Hcap Hbal) as [Hfin|[r1 Hstep]].
  - exists r. split; [apply rtc_refl | exact Hfin].
  - destruct (IH r1) as (r' & Hrun & Hfin).
    + pose proof (step_decreases r r1 Hstep). lia.
    + by apply (balanced_step r).
    + exists r'. split; [by eapply rtc_l | exact Hfin].
Qed.

End PhaseAccounting.

Section PhaseCalls.

Variable concurrentCount : nat.
Variable ph : Phase.
Variables ann tsk : provider.Provider → list Event.

Hypothesis announce_calls :
  ∀ p w, trace (world_of (announce ph p w)) = trace w ++ ann p.
Hypothesis task_calls :
  ∀ p w, trace (world_of (task ph p w)) = trace w ++ tsk p.

Lemma accounted_start (providers : list (string * provider.Provider)) (w : World) :
  accounted ph ann tsk (providers.*2) w (start providers w).
Proof.
  unfold accounted, start. cbn. split_and!; [done|done|set_solver|].
  exists []. rewrite app_nil_r. split_and!; [done|set_solver|auto].
Qed.

(** The goroutine list with one goroutine moved on or removed still holds
    every goroutine that was in its task elsewhere. *)
Lemma in_task_elsewhere (gs1 gs2 : list (provider.Provider * GoPc))
    (p q : provider.Provider) (g : GoPc) (mid : list (provider.Provider * GoPc)) :
  g ≠ InTask →
  (q, InTask) ∈ gs1 ++ (p, g) :: gs2 →
  (q, InTask) ∈ gs1 ++ mid ++ gs2.
Proof.
  intros Hg [?|[[= -> <-]|?]%elem_of_cons]%elem_of_app; [|done|];
    rewrite !elem_of_app; auto.
Qed.

(** Whatever holds of the owners of all goroutines still holds when one
    goroutine moves on, or goes. *)
Lemma owners_after_move (P : provider.Provider → Prop)
    (gs1 gs2 : list (provider.Provider * GoPc)) (p : provider.Provider)
    (g g' : GoPc) :
  (∀ q h, (q, h) ∈ gs1 ++ (p, g) :: gs2 → P q) →
  ∀ q h, (q, h) ∈ gs1 ++ (p, g') :: gs2 → P q.
Proof.
  intros Hall q h [?|[[= -> ->]|?]%elem_of_cons]%elem_of_app.
  - apply (Hall q h). apply elem_of_app. by left.
  - apply (Hall p g). apply elem_of_app. right. by left.
  - apply (Hall q h). apply elem_of_app. right. by right.
Qed.

Lemma owners_after_exit (P : provider.Provider → Prop)
    (gs1 gs2 : list (provider.Provider * GoPc)) (p : provider.Provider)
    (g : GoPc) :
  (∀ q h, (q, h) ∈ gs1 ++ (p, g) :: gs2 → P q) →
  ∀ q h, (q, h) ∈ gs1 ++ gs2 → P q.
Proof.
  intros Hall q h [?|?]%elem_of_app; apply (Hall q h); apply elem_of_app;
    [by left | right; by right].
Qed.

Lemma accounted_step (ps0 : list provider.Provider) (w0 : World) (r r' : Run) :
  accounted ph ann tsk ps0 w0 r → step concurrentCount ph r r' →
  accounted ph ann tsk ps0 w0 r'.
Proof.
  intros (Hpend & Hpc & Hgs & t & Ht & Hsound & Hall) Hstep.
  destruct Hstep; unfold accounted; cbn in *.
  - (* skip *)
    split_and!; [by intros q Hq; apply Hpend; right|done|done|].
    exists t. split_and!; [done..|].
    intros q Hq Hl. destruct (Hall q Hq Hl) as [Hin|?]; [|by right].
    apply elem_of_cons in Hin as [->|?]; [congruence|by left].
  - (* enter *)
    assert (p ∈ ps0) by (apply Hpend; by left).
    split_and!;
      [by intros q Hq; apply Hpend; right|by intros ? [= <-]|done|].
    exists (t ++ ann p). rewrite announce_calls, Ht, (assoc_L (++)).
    split_and!; [done| |].
    + intros e [?|?]%elem_of_app; [by apply Hsound|]. exists p. auto.
    + intros q Hq Hl. destruct (Hall q Hq Hl) as [Hin|[?|[?|Hdone]]];
        [|done|by auto|].
      * apply elem_of_cons in Hin as [->|?]; auto.
      * do 3 right. intros e He. apply elem_of_app. auto.
  - (* add *)
    split_and!; [done..|]. exists t. split_and!; done.
  - (* send *)
    split_and!; [done..|]. exists t. split_and!; done.
  - (* go *)
    destruct (Hpc p eq_refl) as [Hp Hlp].
    split_and!; [done|done| |].
    + intros q g [?|[= -> ->]%list_elem_of_singleton]%elem_of_app;
        [by apply (Hgs q g) | done].
    + exists t. split_and!; [done..|].
      intros q Hq Hl. destruct (Hall q Hq Hl) as [?|[[= ->]|[?|?]]]; auto.
      * do 2 right. left. apply elem_of_app. right. by apply list_elem_of_singleton.
      * do 2 right. left. apply elem_of_app. by left.
  - (* end of the range *)
    split_and!; [done|by destruct (waits ph)|done|].
    exists t. split_and!; [done..|].
    intros q Hq Hl. destruct (Hall q Hq Hl) as [[]%elem_of_nil|[?|?]];
      [done|by auto].
  - (* wait *)
    split_and!; [done..|]. exists t. split_and!; done.
  - (* task *)
    assert (p ∈ ps0 ∧ launches ph p = true) as [Hp Hlp].
    { apply (Hgs p InTask). apply elem_of_app. right. by left. }
    split_and!; [done|done|by apply (owners_after_move _ gs1 gs2 p InTask)|].
    exists (t ++ tsk p). rewrite task_calls, Ht, (assoc_L (++)).
    split_and!; [done| |].
    + intros e [?|?]%elem_of_app; [by apply Hsound|]. exists p. auto.
    + intros q Hq Hl. destruct (Hall q Hq Hl) as [?|[?|[Hin|Hdone]]];
        [by auto..| |].
      * apply elem_of_app in Hin as [?|[[= ->]|?]%elem_of_cons].
        -- do 2 right. left. apply elem_of_app. by left.
        -- do 3 right. intros e He. apply elem_of_app. auto.
        -- do 2 right. left. apply elem_of_app. right. by right.
      * do 3 right. intros e He. apply elem_of_app. auto.
  - (* receive *)
    split_and!; [done|done|by apply (owners_after_move _ gs1 gs2 p AtRecv)|].
    exists t. split_and!; [done..|].
    intros q Hq Hl. destruct (Hall q Hq Hl) as [?|[?|[Hin|?]]];
      [by auto..| |by auto].
    do 2 right. left.
    by apply (in_task_elsewhere gs1 gs2 p q AtRecv [(p, AtWgDone)]).
  - (* done *)
    split_and!; [done|done|by apply (owners_after_exit _ gs1 gs2 p AtWgDone)|].
    exists t. split_and!; [done..|].
    intros q Hq Hl. destruct (Hall q Hq Hl) as [?|[?|[Hin|?]]];
      [by auto..| |by auto].
    do 2 right. left.
    by apply (in_task_elsewhere gs1 gs2 p q AtWgDone []).
Qed.

Lemma accounted_reachable (providers : list (string * provider.Provider))
    (w : World) (r : Run) :
  reachable concurrentCount ph providers w r →
  accounted ph ann tsk (providers.*2) w r.
Proof.
  unfold reachable. revert r.
  apply (rtc_ind_r (R := step concurrentCount ph)
           (accounted ph ann tsk (providers.*2) w) (start providers w));
    [apply accounted_start|].
  intros r1 r2 _ Hstep Hacc. by apply (accounted_step _ _ r1).
Qed.

(** The calls of a phase: only those of providers the loop launches, and
    all task calls of all of them once the phase has finished. *)
Lemma phase_calls (providers : list (string * provider.Provider))
    (w : World) (r : Run) :
  reachable concurrentCount ph providers w r →
  ∃ t, trace (world r) = trace w ++ t
    ∧ (∀ e, e ∈ t →
         ∃ p, p ∈ providers.*2 ∧ launches ph p = true
              ∧ (e ∈ ann p ∨ e ∈ tsk p))
    ∧ (finished r →
       ∀ p e, p ∈ providers.*2 → launches ph p = true → e ∈ tsk p → e ∈ t).
Proof.
  intros Hrun.
  destruct (balanced_reachable concurrentCount ph providers w r Hrun)
    as (_ & _ & _ & Hpend).
  destruct (accounted_reachable providers w r Hrun)
    as (_ & _ & _ & t & Ht & Hsound & Hall).
  exists t. split_and!; [done..|].
  intros [Hret Hgs] p e Hp Hl He. rewrite Hret in Hpend.
  destruct (Hall p Hp Hl) as [Hin|[Hpc|[Hin|Hdone]]].
  - rewrite Hpend in Hin. by apply elem_of_nil in Hin.
  - by rewrite Hret in Hpc.
  - rewrite Hgs in Hin. by apply elem_of_nil in Hin.
  - by apply Hdone.
Qed.

End PhaseCalls.

(** ** The provider initializer *)

Lemma loadProvider_spec (pv : provider.Provider) (w : World) :
  loadProvider pv w = Done tt (with_trace (λ t, t ++ loadProvider_calls pv) w).
Proof.
  unfold loadProvider, loadProvider_calls.
  destruct pv as [name ty [|] [err|]];
    cbn [provider.Vehicle provider.Initial provider.Name provider.Type_];
    (case_decide; [try done|try done]).
  - destruct ty; run_M; cbn [provider.Initial provider.Name]; run_M;
      by rewrite <- !(assoc_L (++)).
  - run_M. cbn [provider.Initial provider.Name]. run_M.
    rewrite <- !(assoc_L (++)). cbn. reflexivity.
  - unfold with_trace. rewrite app_nil_r. by destruct w.
  - unfold with_trace. rewrite app_nil_r. by destruct w.
Qed.

Lemma hcCompatibleProvider_task_spec (pv : provider.Provider) (w : World) :
  hcCompatibleProvider_task pv w
  = Done tt (with_trace (λ t, t ++ hcCompatibleProvider_task_calls pv) w).
Proof.
  unfold hcCompatibleProvider_task, hcCompatibleProvider_task_calls.
  destruct pv as [name ty v [err|]]; run_M;
    cbn [provider.Initial provider.Name]; run_M;
    by rewrite <- ?(assoc_L (++)).
Qed.

Lemma loadProvider_initial_calls (pv : provider.Provider) :
  filter (λ e, is_initial e = true) (loadProvider_calls pv)
  = if decide (provider.Vehicle pv = provider.Compatible) then []
    else [ProviderInitial (provider.Name pv) (provider.Initial pv)].
Proof.
  unfold loadProvider_calls.
  destruct pv as [name ty [|] [err|]]; cbn; by case_decide.
Qed.

Lemma initial_in_loadProvider_calls (pv : provider.Provider) (name : string)
    (err : option string) :
  ProviderInitial name err ∈ loadProvider_calls pv
  ↔ provider.Vehicle pv ≠ provider.Compatible
    ∧ name = provider.Name pv ∧ err = provider.Initial pv.
Proof.
  unfold loadProvider_calls.
  destruct pv as [n ty [|] [e|]]; cbn; rewrite ?elem_of_cons, ?elem_of_nil;
    split; try (intros [?|[?|[?|?]]]; simplify_eq; done);
    try (intros [?|[?|?]]; simplify_eq; done);
    try (intros (? & -> & ->); auto); try (intros (? & _); done); try done.
Qed.

Lemma initial_in_hc_task_calls (pv : provider.Provider) (name : string)
    (err : option string) :
  ProviderInitial name err ∈ hcCompatibleProvider_task_calls pv
  ↔ name = provider.Name pv ∧ err = provider.Initial pv.
Proof.
  unfold hcCompatibleProvider_task_calls.
  destruct pv as [n ty v [e|]]; cbn; rewrite ?elem_of_cons, ?elem_of_nil;
    split; try (intros [?|[?|?]]; simplify_eq; done);
    try (intros [?|?]; simplify_eq; done);
    try (intros (-> & ->); auto).
Qed.


(** ** The three phases *)

(** [loadRuleProvider] and [loadProxyProvider] are the same program. *)
Lemma loadRuleProvider_same : loadRuleProvider = loadProxyProvider.
Proof. reflexivity. Qed.

(** In a managed phase the trace grows by calls of [loadProvider] only, and
    when the phase has finished every provider's calls are on it. *)
Lemma managed_phase_calls (concurrentCount : nat)
    (providers : list (string * provider.Provider)) (w : World) (r : Run) :
  reachable concurrentCount loadProxyProvider providers w r →
  ∃ t, trace (world r) = trace w ++ t
    ∧ (∀ e, e ∈ t → ∃ pv, pv ∈ providers.*2 ∧ e ∈ loadProvider_calls pv)
    ∧ (finished r →
       ∀ pv e, pv ∈ providers.*2 → e ∈ loadProvider_calls pv → e ∈ t).
Proof.
  intros Hrun.
  destruct (phase_calls concurrentCount loadProxyProvider
              (λ _, []) loadProvider_calls) with (3 := Hrun)
    as (t & Ht & Hsound & Hall).
  - intros p w'. cbn. by rewrite app_nil_r.
  - intros p w'. cbn. by rewrite loadProvider_spec.
  - exists t. split_and!; [done| |].
    + intros e He.
      destruct (Hsound e He) as (pv & Hpv & _ & [[]%elem_of_nil|?]). eauto.
    + intros Hfin pv e Hpv He. by apply (Hall Hfin pv e).
Qed.

(** In the compatibility phase the trace grows by the announcement and the
    task calls of compatible providers only. *)
Lemma compatible_phase_calls (concurrentCount : nat)
    (providers : list (string * provider.Provider)) (w : World) (r : Run) :
  reachable concurrentCount hcCompatibleProvider providers w r →
  ∃ t, trace (world r) = trace w ++ t
    ∧ (∀ e, e ∈ t →
         ∃ pv, pv ∈ providers.*2
               ∧ provider.Vehicle pv = provider.Compatible
               ∧ (e = Log INFO "Start initial Compatible provider %s"
                        [AStr (provider.Name pv)]
                  ∨ e ∈ hcCompatibleProvider_task_calls pv))
    ∧ (finished r →
       ∀ pv e, pv ∈ providers.*2 →
               provider.Vehicle pv = provider.Compatible →
               e ∈ hcCompatibleProvider_task_calls pv → e ∈ t).
Proof.
  intros Hrun.
  destruct (phase_calls concurrentCount hcCompatibleProvider
              (λ pv, [Log INFO "Start initial Compatible provider %s"
                        [AStr (provider.Name pv)]])
              hcCompatibleProvider_task_calls) with (3 := Hrun)
    as (t & Ht & Hsound & Hall).
  - intros p w'. reflexivity.
  - intros p w'. cbn. by rewrite hcCompatibleProvider_task_spec.
  - exists t. split_and!; [done| |].
    + intros e He. destruct (Hsound e He) as (pv & Hpv & Hl & Hcalls).
      exists pv. cbn in Hl. apply bool_decide_eq_true in Hl.
      split_and!; [done..|].
      destruct Hcalls as [->%list_elem_of_singleton|?]; auto.
    + intros Hfin pv e Hpv Hc He. apply (Hall Hfin pv e); [done| |done].
      cbn. by apply bool_decide_eq_true.
Qed.

(** C6. The managed phases run [loadProvider], which calls [Initial] on a
    provider exactly when its vehicle type is not Compatible (for a
    Compatible one it does nothing at all), answers normally whatever
    [Initial] returned, and logs an error with the provider's name and its
    proxy or rule type; so every [Initial] call of a managed phase is on a
    non-Compatible provider of the set, and all of these have been called
    when the phase has finished.  Every [Initial] call of the compatibility
    phase is on a Compatible provider of the set. *)
Theorem provider_initialization_by_vehicle :
  (∀ pv w,
     loadProvider pv w = Done tt (with_trace (λ t, t ++ loadProvider_calls pv) w))
  ∧ (∀ pv w,
       provider.Vehicle pv = provider.Compatible → loadProvider pv w = Done tt w)
  ∧ (∀ pv,
       filter (λ e, is_initial e = true) (loadProvider_calls pv)
       = if decide (provider.Vehicle pv = provider.Compatible) then []
         else [ProviderInitial (provider.Name pv) (provider.Initial pv)])
  ∧ (∀ pv err,
       provider.Vehicle pv ≠ provider.Compatible →
       provider.Initial pv = Some err →
       last (loadProvider_calls pv)
       = Some (Log ERROR
                 match provider.Type_ pv with
                 | provider.Proxy => "initial proxy provider %s error: %v"
                 | provider.Rule => "initial rule provider %s error: %v"
                 end
                 [AStr (provider.Name pv); AStr err]))
  ∧ (∀ concurrentCount providers w r,
       reachable concurrentCount loadProxyProvider providers w r
       ∨ reachable concurrentCount loadRuleProvider providers w r →
       ∃ t, trace (world r) = trace w ++ t
         ∧ (∀ name err, ProviderInitial name err ∈ t →
              ∃ pv, pv ∈ providers.*2
                    ∧ provider.Vehicle pv ≠ provider.Compatible
                    ∧ name = provider.Name pv ∧ err = provider.Initial pv)
         ∧ (finished r →
            ∀ pv, pv ∈ providers.*2 →
                  provider.Vehicle pv ≠ provider.Compatible →
                  ProviderInitial (provider.Name pv) (provider.Initial pv) ∈ t))
  ∧ (∀ concurrentCount providers w r,
       reachable concurrentCount hcCompatibleProvider providers w r →
       ∃ t, trace (world r) = trace w ++ t
         ∧ ∀ name err, ProviderInitial name err ∈ t →
             ∃ pv, pv ∈ providers.*2
                   ∧ provider.Vehicle pv = provider.Compatible
                   ∧ name = provider.Name pv ∧ err = provider.Initial pv).
Proof.
  split_and!.
  - apply loadProvider_spec.
  - intros pv w Hc. unfold loadProvider. by case_decide.
  - apply loadProvider_initial_calls.
  - intros [name ty [|] init] err Hm Hinit; [|done].
    cbn in Hinit. subst init. reflexivity.
  - intros K providers w r Hrun.
    assert (reachable K loadProxyProvider providers w r) as Hrun'
      by (by destruct Hrun).
    destruct (managed_phase_calls K providers w r Hrun')
      as (t & Ht & Hsound & Hall).
    exists t. split_and!; [done| |].
    + intros name err Hin. destruct (Hsound _ Hin) as (pv & Hpv & Hcall).
      apply initial_in_loadProvider_calls in Hcall as (? & ? & ?). eauto.
    + intros Hfin pv Hpv Hm. apply (Hall Hfin pv _ Hpv).
      by apply initial_in_loadProvider_calls.
  - intros K providers w r Hrun.
    destruct (compatible_phase_calls K providers w r Hrun)
      as (t & Ht & Hsound & _).
    exists t. split; [done|].
    intros name err Hin.
    destruct (Hsound _ Hin) as (pv & Hpv & Hc & [[=]|Hcall]).
    apply initial_in_hc_task_calls in Hcall as (? & ?). eauto.
Qed.

(** One run each: the failing managed provider is initialized and its
    error logged under its type; the compatible one is left alone. *)
Example loadProvider_logs_failure :
  trace (world_of (loadProvider remote_bad world0))
  = [ Log INFO "Start initial provider %s" [AStr "remote-bad"];
      ProviderInitial "remote-bad" (Some "context deadline exceeded");
      Log ERROR "initial proxy provider %s error: %v"
        [AStr "remote-bad"; AStr "context deadline exceeded"] ].
Proof. reflexivity. Qed.

Example loadProvider_loads :
  trace (world_of (loadProvider remote_ok world0))
  = [ Log INFO "Start initial provider %s" [AStr "remote-ok"];
      ProviderInitial "remote-ok" None ].
Proof. reflexivity. Qed.

Example loadProvider_skips_compatible :
  loadProvider inline_group world0 = Done tt world0.
Proof. reflexivity. Qed.

(** X11. At most [concurrentCount] tasks are in flight at any moment, in
    each of the three phases. *)
Lemma phases_in_flight_bounded (concurrentCount : nat)
    (providers : list (string * provider.Provider)) (w : World) (r : Run) :
  reachable concurrentCount loadProxyProvider providers w r
  ∨ reachable concurrentCount loadRuleProvider providers w r
  ∨ reachable concurrentCount hcCompatibleProvider providers w r →
  (in_flight r ≤ concurrentCount)%nat.
Proof.
  intros [?|[?|?]]; by eapply phase_in_flight_bounded.
Qed.


(** The managed phases do return, with all tasks finished, whatever the
    tasks' outcomes, given room for one task. *)
Lemma managed_phases_complete (concurrentCount : nat)
    (providers : list (string * provider.Provider)) (w : World) :
  (0 < concurrentCount)%nat →
  ∃ r, reachable concurrentCount loadProxyProvider providers w r ∧ finished r.
Proof.
  intros Hcap.
  apply (phase_completes concurrentCount loadProxyProvider _ Hcap),
    balanced_start.
Qed.

(** C2, at the failing input.  [hcCompatibleProvider] has no [wg.Wait()]:
    with one compatible provider and capacity one, it can return while the
    task it started is still in flight. *)
Theorem hcCompatibleProvider_returns_with_task_in_flight :
  ∃ r, reachable 1 hcCompatibleProvider [("inline", inline_group)] world0 r
       ∧ pc r = Returned
       ∧ goroutines r = [(inline_group, InTask)]
       ∧ in_flight r = 1%nat.
Proof.
  exists (mkRun Returned [] 1 1 [(inline_group, InTask)]
            (with_trace
               (λ _, [Log INFO "Start initial Compatible provider %s"
                        [AStr "inline"]]) world0)).
  split_and!; [|reflexivity..].
  unfold reachable, start. cbn.
  eapply rtc_l; [by apply step_enter|].
  eapply rtc_l; [apply step_add|].
  eapply rtc_l; [apply step_send; lia|].
  eapply rtc_l; [apply step_go|].
  eapply rtc_l; [apply step_range_end|].
  cbn. apply rtc_refl.
Qed.

(** * Further properties *)

(** ** The privileged network rule installer, continued *)

(** X1. Off Linux, or with iptables disabled in the configuration,
    [updateIPTables] removes the rules this process installed and returns:
    it never exits, whatever the tun, port and DNS settings are, and makes
    no other call. *)
Theorem updateIPTables_gate_closed_only_cleans
    (GOOS : string) (ParseAddrPort : string → option Z)
    (SetTProxyIPTables_err : string → list string → Z → Z → option string)
    (cfg : config.Config) (w : World) :
  GOOS ≠ "linux" ∨ config.IPT_Enable (config.IPTables_ cfg) = false →
  updateIPTables GOOS ParseAddrPort SetTProxyIPTables_err cfg w
  = Done tt (with_trace (λ t, t ++ [CleanupTProxyIPTables]) w).
Proof.
  intros Hgate. unfold updateIPTables.
  assert (bool_decide (GOOS ≠ "linux")
          || negb (config.IPT_Enable (config.IPTables_ cfg)) = true) as Hg.
  { destruct Hgate as [Hos| ->].
    - by rewrite bool_decide_eq_true_2.
    - apply orb_true_r. }
  cbv zeta. rewrite Hg. reflexivity.
Qed.

Lemma updateIPTables_gate_closed_only_cleans_witness :
  ("darwin" ≠ "linux"
   ∨ config.IPT_Enable (config.IPTables_ (config0 true 0 false "")) = false)
  ∧ updateIPTables "darwin" parse0 install_fails (config0 true 0 false "") world0
    = Done tt (with_trace (λ t, t ++ [CleanupTProxyIPTables]) world0).
Proof.
  split; [by left|].
  apply (updateIPTables_gate_closed_only_cleans "darwin" parse0 install_fails
           (config0 true 0 false "") world0).
  by left.
Defined.

(** X2. On Linux with iptables enabled, if [updateIPTables] returns at all
    then every precondition held and the rules are in: tun is off, the
    transparent-proxy port is not zero, DNS is on, its listen address
    parsed, and after the cleanup exactly one installation call was made,
    for the configured interface (or "lo"), the bypass list, the port as
    [uint16] and the DNS port, and it answered nil; the default routing
    mark is not zero afterwards. *)
Theorem updateIPTables_returns_only_with_rules
    (ParseAddrPort : string → option Z)
    (SetTProxyIPTables_err : string → list string → Z → Z → option string)
    (cfg : config.Config) (w w' : World) :
  config.IPT_Enable (config.IPTables_ cfg) = true →
  updateIPTables "linux" ParseAddrPort SetTProxyIPTables_err cfg w = Done tt w' →
  config.Tun_Enable (config.Tun_ (config.General_ cfg)) = false
  ∧ config.TProxyPort (config.General_ cfg) ≠ 0
  ∧ config.Enable (config.DNS_ cfg) = true
  ∧ ∃ dnsPort,
      ParseAddrPort (config.Listen (config.DNS_ cfg)) = Some dnsPort
      ∧ trace w' = trace w ++
          [ CleanupTProxyIPTables;
            SetTProxyIPTables (iptables_ifname cfg)
              (config.Bypass (config.IPTables_ cfg))
              (uint16 (config.TProxyPort (config.General_ cfg))) dnsPort None;
            Log INFO "[IPTABLES] Setting iptables completed" [] ]
      ∧ DefaultRoutingMark (dialer w') ≠ 0.
Proof.
  intros Hen.
  unfold updateIPTables, updateIPTables_deferred_scope, tproxy_SetTProxyIPTables.
  rewrite Hen. rewrite bool_decide_eq_false_2 by (intros H; by apply H).
  cbn [orb negb]. fold (iptables_ifname cfg).
  destruct (config.Tun_Enable _) eqn:Htun; [by run_M|].
  destruct (bool_decide (config.TProxyPort _ = 0)) eqn:Hport; [by run_M|].
  apply bool_decide_eq_false in Hport.
  destruct (config.Enable _) eqn:Hdns; cbn [negb]; [|by run_M].
  destruct (ParseAddrPort _) as [dnsPort|] eqn:Hparse; [|by run_M].
  destruct (SetTProxyIPTables_err _ _ _ _) as [err|] eqn:Herr.
  { run_M. by next_test. }
  run_M. destruct (bool_decide _) eqn:Hmark; run_M; intros [= <-];
    (split_and!; [done..|]); exists dnsPort;
    (split_and!; [done| |]); cbn; rewrite <- ?(assoc_L (++)); try done.
  by apply bool_decide_eq_false in Hmark.
Qed.

Lemma updateIPTables_returns_only_with_rules_witness :
  config.IPT_Enable
    (config.IPTables_ (config0 false 7893 true "0.0.0.0:1053")) = true
  ∧ DefaultRoutingMark (dialer (world_of
      (updateIPTables "linux" parse0 install_ok
         (config0 false 7893 true "0.0.0.0:1053") world0))) ≠ 0.
Proof.
  split; [reflexivity|].
  destruct (updateIPTables_returns_only_with_rules parse0 install_ok
              (config0 false 7893 true "0.0.0.0:1053") world0
              (world_of (updateIPTables "linux" parse0 install_ok
                 (config0 false 7893 true "0.0.0.0:1053") world0))
              eq_refl eq_refl) as (_ & _ & _ & dnsPort & _ & _ & Hmark).
  exact Hmark.
Defined.

(** X3. Whatever the configuration and however it ends, [updateIPTables]
    changes no variable except the default routing mark, and that one only
    from zero to 2158: a mark that was configured is never overwritten. *)
Theorem updateIPTables_touches_only_zero_mark
    (GOOS : string) (ParseAddrPort : string → option Z)
    (SetTProxyIPTables_err : string → list string → Z → Z → option string)
    (cfg : config.Config) (w : World) :
  let w' := world_of
              (updateIPTables GOOS ParseAddrPort SetTProxyIPTables_err cfg w) in
  resolver w' = resolver w
  ∧ listener w' = listener w
  ∧ selection w' = selection w
  ∧ tcpConcurrent (dialer w') = tcpConcurrent (dialer w)
  ∧ DefaultInterface (dialer w') = DefaultInterface (dialer w)
  ∧ UnifiedDelay (dialer w') = UnifiedDelay (dialer w)
  ∧ StoreSelected (dialer w') = StoreSelected (dialer w)
  ∧ (DefaultRoutingMark (dialer w') = DefaultRoutingMark (dialer w)
     ∨ DefaultRoutingMark (dialer w) = 0
       ∧ DefaultRoutingMark (dialer w') = 2158).
Proof.
  unfold updateIPTables, updateIPTables_deferred_scope, tproxy_SetTProxyIPTables.
  repeat (run_M; next_test; cbn [orb]); run_M; split_and!; try done;
    try (by left).
  all: right; split; [|done];
    match goal with H : bool_decide _ = true |- _ =>
      by apply bool_decide_eq_true in H end.
Qed.

(** X4. The zero check is on the configured [int], the installer gets its
    [uint16]: a port that is a non-zero multiple of 65536 passes the check
    and the rules are installed for port 0. *)
Theorem updateIPTables_port_wraps_to_zero
    (ParseAddrPort : string → option Z)
    (SetTProxyIPTables_err : string → list string → Z → Z → option string)
    (cfg : config.Config) (w : World) (k dnsPort : Z) :
  config.IPT_Enable (config.IPTables_ cfg) = true →
  config.Tun_Enable (config.Tun_ (config.General_ cfg)) = false →
  config.Enable (config.DNS_ cfg) = true →
  ParseAddrPort (config.Listen (config.DNS_ cfg)) = Some dnsPort →
  config.TProxyPort (config.General_ cfg) = 65536 * k →
  k ≠ 0 →
  SetTProxyIPTables (iptables_ifname cfg) (config.Bypass (config.IPTables_ cfg))
    0 dnsPort
    (SetTProxyIPTables_err (iptables_ifname cfg)
       (config.Bypass (config.IPTables_ cfg)) 0 dnsPort)
  ∈ trace (world_of
      (updateIPTables "linux" ParseAddrPort SetTProxyIPTables_err cfg w)).
Proof.
  intros Hen Htun Hdns Hparse Hport Hk.
  unfold updateIPTables, updateIPTables_deferred_scope, tproxy_SetTProxyIPTables.
  rewrite Hen, Htun, Hdns, Hparse, Hport.
  rewrite bool_decide_eq_false_2 by (intros H; by apply H).
  rewrite (bool_decide_eq_false_2 (65536 * k = 0)) by lia.
  cbn [orb negb]. fold (iptables_ifname cfg).
  assert (uint16 (65536 * k) = 0) as ->.
  { unfold uint16. change (2 ^ 16) with 65536.
    rewrite Z.mul_comm. apply Z_mod_mult. }
  destruct (SetTProxyIPTables_err _ _ _ _) as [err|];
    run_M; next_test; run_M; rewrite <- ?(assoc_L (++)); cbn [app];
    rewrite !elem_of_app, !elem_of_cons; auto.
Qed.

Lemma updateIPTables_port_wraps_to_zero_witness :
  config.IPT_Enable
    (config.IPTables_ (config0 false 65536 true "0.0.0.0:1053")) = true
  ∧ SetTProxyIPTables "lo" ["10.0.0.0/8"] 0 1053 None
    ∈ trace (world_of
        (updateIPTables "linux" parse0 install_ok
           (config0 false 65536 true "0.0.0.0:1053") world0)).
Proof.
  split; [reflexivity|].
  apply (updateIPTables_port_wraps_to_zero parse0 install_ok
           (config0 false 65536 true "0.0.0.0:1053") world0 1 1053);
    (reflexivity || lia).
Defined.

(** ** The DNS stack builder, continued *)

(** X5. Whichever branch [updateDNS] takes, what it hands to the DNS server
    is what it leaves in the process-wide variables: the last call is
    [ReCreateServer] with the default resolver and the default host mapper
    (on the configured listen address, or on none when DNS is off), and the
    default local server wraps the same two, or is nil with them. *)
Theorem updateDNS_server_agrees_with_defaults
    (c : config.DNS) (ruleProvider : list (string * provider.Provider))
    (generalIPv6 : bool) (w : World) :
  let w' := world_of (updateDNS c ruleProvider generalIPv6 w) in
  last (trace w')
  = Some (ReCreateServer (if config.Enable c then config.Listen c else "")
            (DefaultResolver (resolver w')) (DefaultHostMapper (resolver w')))
  ∧ DefaultLocalServer (resolver w')
    = match DefaultResolver (resolver w'), DefaultHostMapper (resolver w') with
      | Some r, Some m => Some (dns.NewLocalServer r m)
      | _, _ => None
      end
  ∧ (is_Some (DefaultResolver (resolver w')) ↔ config.Enable c = true)
  ∧ (is_Some (DefaultHostMapper (resolver w')) ↔ config.Enable c = true).
Proof.
  destruct (config.Enable c) eqn:Hen; cbn zeta.
  - rewrite (updateDNS_enabled c ruleProvider generalIPv6 w Hen).
    cbn [world_of resolver trace DefaultResolver DefaultHostMapper
         DefaultLocalServer].
    rewrite last_snoc. split_and!; [done..| |]; split; eauto.
  - unfold updateDNS. rewrite Hen. run_M.
    rewrite last_snoc. split_and!; [done..| |]; split;
      (done || intros [? [=]]).
Qed.

(** X6. Turning DNS off and on again cold-starts the cache: after an apply
    with DNS disabled followed by one with DNS enabled, the host mapper is
    the enhancer built from the second configuration, with nothing patched
    in from whatever mapper there was before. *)
Theorem updateDNS_off_then_on_starts_cold
    (c1 c2 : config.DNS) (rp1 rp2 : list (string * provider.Provider))
    (v1 v2 : bool) (w : World) :
  config.Enable c1 = false →
  config.Enable c2 = true →
  DefaultHostMapper (resolver (world_of
    (updateDNS c2 rp2 v2 (world_of (updateDNS c1 rp1 v1 w)))))
  = Some (dns.NewEnhancer (updateDNS_cfg c2 rp2 v2)).
Proof.
  intros Hoff Hon.
  rewrite (updateDNS_enabled c2 rp2 v2 _ Hon).
  unfold updateDNS at 1. rewrite Hoff. run_M. reflexivity.
Qed.

Lemma updateDNS_off_then_on_starts_cold_witness :
  config.Enable (dns0 false "" []) = false
  ∧ config.Enable (dns0 true "0.0.0.0:1053" []) = true
  ∧ dns.mapping <$> DefaultHostMapper (resolver (world_of
      (updateDNS (dns0 true "0.0.0.0:1053" []) [] true
         (world_of (updateDNS (dns0 false "" []) [] true world1)))))
    = Some ∅.
Proof.
  split; [reflexivity|]. split; [reflexivity|].
  rewrite (updateDNS_off_then_on_starts_cold (dns0 false "" [])
             (dns0 true "0.0.0.0:1053" []) [] [] true true world1
             eq_refl eq_refl).
  reflexivity.
Defined.

(** X7. The proxy-server host resolver outlives its configuration: once an
    apply has installed one, a later apply with DNS disabled, or enabled
    without proxy-server name servers, leaves the resolver of the earlier
    configuration in place. *)
Theorem updateDNS_proxy_server_resolver_sticks
    (c1 c2 : config.DNS) (rp1 rp2 : list (string * provider.Provider))
    (v1 v2 : bool) (w : World) :
  config.Enable c1 = true →
  config.ProxyServerNameserver c1 ≠ [] →
  config.Enable c2 = false ∨ config.ProxyServerNameserver c2 = [] →
  ProxyServerHostResolver (resolver (world_of
    (updateDNS c2 rp2 v2 (world_of (updateDNS c1 rp1 v1 w)))))
  = Some (dns.NewProxyServerHostResolver
            (dns.NewResolver (updateDNS_cfg c1 rp1 v1))).
Proof.
  intros Hon1 Hps1 Hc2.
  rewrite (updateDNS_enabled c1 rp1 v1 w Hon1).
  assert (dns.Invalid (dns.NewProxyServerHostResolver
            (dns.NewResolver (updateDNS_cfg c1 rp1 v1))) = true) as ->.
  { unfold dns.Invalid. cbn. by destruct (config.ProxyServerNameserver c1). }
  cbn [world_of].
  destruct (config.Enable c2) eqn:Hon2.
  - destruct Hc2 as [?|Hps2]; [done|].
    rewrite (updateDNS_enabled c2 rp2 v2 _ Hon2).
    assert (dns.Invalid (dns.NewProxyServerHostResolver
              (dns.NewResolver (updateDNS_cfg c2 rp2 v2))) = false) as ->.
    { unfold dns.Invalid. cbn. by rewrite Hps2. }
    reflexivity.
  - unfold updateDNS. rewrite Hon2. run_M. reflexivity.
Qed.

Lemma updateDNS_proxy_server_resolver_sticks_witness :
  config.Enable (dns0 true "0.0.0.0:1053" ["8.8.8.8"]) = true
  ∧ config.ProxyServerNameserver (dns0 true "0.0.0.0:1053" ["8.8.8.8"]) ≠ []
  ∧ dns.main <$> ProxyServerHostResolver (resolver (world_of
      (updateDNS (dns0 false "" []) [] true
         (world_of (updateDNS (dns0 true "0.0.0.0:1053" ["8.8.8.8"]) []
                      true world0)))))
    = Some ["8.8.8.8"].
Proof.
  split; [reflexivity|]. split; [done|].
  rewrite (updateDNS_proxy_server_resolver_sticks
             (dns0 true "0.0.0.0:1053" ["8.8.8.8"]) (dns0 false "" [])
             [] [] true true world0 eq_refl);
    [reflexivity | done | by left].
Defined.

(** ** Selected-proxy memory, continued *)

Lemma foldl_insert_last (rem : list (positive * string))
    (s : gmap positive string) (group : positive) :
  foldl (λ s gs, <[gs.1 := gs.2]> s) s rem !! group
  = match last (filter (λ gs, gs.1 = group) rem) with
    | Some gs => Some gs.2
    | None => s !! group
    end.
Proof.
  induction rem as [|[g sel] rem IH] using rev_ind; [done|].
  rewrite foldl_app, filter_app, filter_cons, filter_nil. cbn.
  rewrite lookup_insert. repeat case_decide; try done.
  - by rewrite last_snoc.
  - by rewrite app_nil_r.
Qed.

(** X8. The exact store [patchSelectGroup] leaves: a group's active
    selection is the member remembered by the last entry, in range order,
    that is a selector-capable proxy on that group object with a persisted
    name; a group no such entry reaches keeps its selection.  (With a nil
    selected map nothing changes.) *)
Theorem patchSelectGroup_last_entry_wins
    (SelectedMap : option (gmap string string))
    (proxies : list (string * adapter.Proxy)) (w : World) (group : positive) :
  selection (world_of (patchSelectGroup SelectedMap proxies w)) !! group
  = match SelectedMap with
    | None => selection w !! group
    | Some mapping =>
        match last (filter (λ gs, gs.1 = group)
                      (remembered_selections mapping proxies)) with
        | Some gs => Some gs.2
        | None => selection w !! group
        end
    end.
Proof.
  unfold patchSelectGroup. destruct SelectedMap as [mapping|]; [|done].
  rewrite patchSelectGroup_range_spec. cbn [world_of selection].
  apply foldl_insert_last.
Qed.

(** X9. Go's map order does not matter when every group object is reached
    by agreeing entries (as when every name has its own object): ranging
    over the proxies in any other order leaves the same selections. *)
Theorem patchSelectGroup_order_irrelevant
    (mapping : gmap string string)
    (proxies proxies' : list (string * adapter.Proxy)) (w : World) :
  proxies ≡ₚ proxies' →
  (∀ name1 name2 group selected1 selected2,
     (name1, adapter.AdapterProxy (adapter.SelectAble group)) ∈ proxies →
     (name2, adapter.AdapterProxy (adapter.SelectAble group)) ∈ proxies →
     mapping !! name1 = Some selected1 →
     mapping !! name2 = Some selected2 →
     selected1 = selected2) →
  selection (world_of (patchSelectGroup (Some mapping) proxies w))
  = selection (world_of (patchSelectGroup (Some mapping) proxies' w)).
Proof.
  intros Hperm Hagree. unfold patchSelectGroup.
  rewrite !patchSelectGroup_range_spec. cbn [world_of selection].
  apply map_eq. intros group.
  destruct (decide (group ∈ (remembered_selections mapping proxies).*1))
    as [Hin|Hout].
  - apply list_elem_of_fmap in Hin as ([g sel] & -> & Hin). cbn.
    pose proof Hin as (name & Hname & Hm)%elem_of_remembered_selections.
    rewrite (foldl_insert_agreed (remembered_selections mapping proxies)
               _ g sel Hin).
    2:{ intros sel' (name' & Hname' & Hm')%elem_of_remembered_selections.
        by apply (Hagree name' name g). }
    rewrite (foldl_insert_agreed (remembered_selections mapping proxies')
               _ g sel); [done| |].
    + apply elem_of_remembered_selections. exists name. by rewrite <- Hperm.
    + intros sel' (name' & Hname' & Hm')%elem_of_remembered_selections.
      rewrite <- Hperm in Hname'. by apply (Hagree name' name g).
  - rewrite (foldl_insert_absent (remembered_selections mapping proxies)).
    2:{ intros sel Hin. apply Hout, list_elem_of_fmap. by exists (group, sel). }
    rewrite (foldl_insert_absent (remembered_selections mapping proxies'));
      [done|].
    intros sel (name & Hname & Hm)%elem_of_remembered_selections.
    apply Hout, list_elem_of_fmap. exists (group, sel). split; [done|].
    apply elem_of_remembered_selections. exists name. by rewrite Hperm.
Qed.

Lemma patchSelectGroup_order_irrelevant_witness :
  selection (world_of (patchSelectGroup (Some selected0)
    (config.Proxies (config0 false 7893 true "0.0.0.0:1053")) world0))
  = selection (world_of (patchSelectGroup (Some selected0)
      (reverse (config.Proxies (config0 false 7893 true "0.0.0.0:1053")))
      world0)).
Proof.
  apply (patchSelectGroup_order_irrelevant selected0).
  - symmetry. apply reverse_Permutation.
  - intros name1 name2 group s1 s2 H1 H2 Hm1 Hm2.
    assert (∀ name s, selected0 !! name = Some s → s = "NodeA") as Hsel.
    { intros name s. unfold selected0.
      intros [_ <-]%lookup_singleton_Some. done. }
    by rewrite (Hsel _ _ Hm1), (Hsel _ _ Hm2).
Defined.

(** X10. Re-applying is idempotent: running [patchSelectGroup] a second
    time over the same proxies changes no selection. *)
Theorem patchSelectGroup_idempotent
    (SelectedMap : option (gmap string string))
    (proxies : list (string * adapter.Proxy)) (w : World) :
  selection (world_of (patchSelectGroup SelectedMap proxies
    (world_of (patchSelectGroup SelectedMap proxies w))))
  = selection (world_of (patchSelectGroup SelectedMap proxies w)).
Proof.
  unfold patchSelectGroup. destruct SelectedMap as [mapping|]; [|done].
  rewrite !patchSelectGroup_range_spec. cbn [world_of selection].
  apply map_eq. intros group. rewrite !foldl_insert_last.
  by destruct (last _).
Qed.

(** ** The provider phases, continued *)

Section PhaseRuns.

Variable concurrentCount : nat.
Variable ph : Phase.



(** X14. No deadlock: with room for at least one task, from every state a
    phase can reach, it can go on to the state where the launching function
    has returned and every goroutine has finished. *)
Theorem phase_can_always_finish
    (providers : list (string * provider.Provider)) (w : World) (r : Run) :
  (0 < concurrentCount)%nat →
  reachable concurrentCount ph providers w r →
  ∃ r', rtc (step concurrentCount ph) r r' ∧ finished r'.
Proof.
  intros Hcap Hrun. apply phase_completes; [done|].
  by apply (balanced_reachable concurrentCount ph providers w).
Qed.

(** X15. A goroutine is never stuck: in every reachable state each
    goroutine can take its next statement, so the deferred receive from
    [ch] never blocks and [wg.Done()] never finds the counter at zero. *)
Theorem goroutine_never_blocks
    (providers : list (string * provider.Provider)) (w : World) (r : Run)
    (gs1 gs2 : list (provider.Provider * GoPc)) (p : provider.Provider)
    (g : GoPc) :
  reachable concurrentCount ph providers w r →
  goroutines r = gs1 ++ (p, g) :: gs2 →
  ∃ r', step concurrentCount ph r r'
        ∧ goroutines r'
          = gs1 ++ match g with
                   | InTask => [(p, AtRecv)]
                   | AtRecv => [(p, AtWgDone)]
                   | AtWgDone => []
                   end ++ gs2.
Proof.
  intros (Hwg & Hch & _)%balanced_reachable Hgs.
  destruct r as [m ps n c gs w']. cbn in Hgs. subst gs. destruct g.
  - eexists. split; [apply step_task|]. done.
  - count_goroutines. destruct c as [|c]; [lia|].
    eexists. split; [apply step_recv|]. done.
  - count_goroutines. destruct n as [|n]; [lia|].
    eexists. split; [apply step_done|]. done.
Qed.


End PhaseRuns.


Lemma inline_task_reachable :
  reachable 1 hcCompatibleProvider [("inline", inline_group)] world0
    (mkRun AtRange [] 1 1 [(inline_group, InTask)]
       (with_trace
          (λ _, [Log INFO "Start initial Compatible provider %s"
                   [AStr "inline"]]) world0)).
Proof.
  unfold reachable, start. cbn.
  eapply rtc_l; [by apply step_enter|].
  eapply rtc_l; [apply step_add|].
  eapply rtc_l; [apply step_send; lia|].
  eapply rtc_l; [apply (step_go _ _ inline_group [] 1 1 [])|].
  apply rtc_refl.
Qed.

Lemma phases_in_flight_bounded_witness :
  (in_flight (mkRun AtRange [] 1 1 [(inline_group, InTask)]
       (with_trace
          (λ _, [Log INFO "Start initial Compatible provider %s"
                   [AStr "inline"]]) world0)) ≤ 1)%nat.
Proof.
  apply (phases_in_flight_bounded 1 [("inline", inline_group)] world0).
  right. right. apply inline_task_reachable.
Defined.



Lemma phase_can_always_finish_witness :
  ∃ r', rtc (step 1 hcCompatibleProvider)
          (mkRun AtRange [] 1 1 [(inline_group, InTask)]
             (with_trace
                (λ _, [Log INFO "Start initial Compatible provider %s"
                         [AStr "inline"]]) world0)) r'
        ∧ finished r'.
Proof.
  apply (phase_can_always_finish 1 hcCompatibleProvider
           [("inline", inline_group)] world0);
    [lia | apply inline_task_reachable].
Defined.

Lemma goroutine_never_blocks_witness :
  ∃ r', step 1 hcCompatibleProvider
          (mkRun AtRange [] 1 1 [(inline_group, InTask)]
             (with_trace
                (λ _, [Log INFO "Start initial Compatible provider %s"
                         [AStr "inline"]]) world0)) r'
        ∧ goroutines r' = [(inline_group, AtRecv)].
Proof.
  apply (goroutine_never_blocks 1 hcCompatibleProvider
           [("inline", inline_group)] world0 _ [] [] inline_group InTask);
    [apply inline_task_reachable | reflexivity].
Defined.


Section PhaseCounts.

Variable concurrentCount : nat.
Variable ph : Phase.
Variable k : provider.Provider → nat.

Hypothesis announce_no_initial :
  ∀ p w, initial_calls (trace (world_of (announce ph p w)))
         = initial_calls (trace w).
Hypothesis task_initials :
  ∀ p w, initial_calls (trace (world_of (task ph p w)))
         = (initial_calls (trace w) + k p)%nat.

(** Calls made plus calls owed stays what it was at the start. *)
Lemma owed_step (r r' : Run) :
  step concurrentCount ph r r' →
  (initial_calls (trace (world r')) + owed ph k r'
   = initial_calls (trace (world r)) + owed ph k r)%nat.
Proof.
  intros Hstep. destruct Hstep; unfold owed;
    cbn [pc pending goroutines world pc_provider sum_list_with];
    rewrite ?sum_list_with_app, ?announce_no_initial, ?task_initials;
    cbn [sum_list_with fst snd];
    try match goal with H : launches ph _ = _ |- _ => rewrite H end;
    try destruct (waits ph); cbn [pc_provider]; lia.
Qed.

Lemma owed_reachable (providers : list (string * provider.Provider))
    (w : World) (r : Run) :
  reachable concurrentCount ph providers w r →
  (initial_calls (trace (world r)) + owed ph k r
   = initial_calls (trace w)
     + sum_list_with (λ p, if launches ph p then k p else 0%nat)
         (providers.*2))%nat.
Proof.
  unfold reachable. revert r.
  apply (rtc_ind_r (R := step concurrentCount ph)
           (λ r, (initial_calls (trace (world r)) + owed ph k r
                  = initial_calls (trace w)
                    + sum_list_with
                        (λ p, if launches ph p then k p else 0%nat)
                        (providers.*2))%nat)
           (start providers w)).
  - unfold owed, start. cbn. lia.
  - intros r1 r2 _ Hstep IH. rewrite <- IH. by apply owed_step.
Qed.

Lemma owed_finished (providers : list (string * provider.Provider))
    (w : World) (r : Run) :
  reachable concurrentCount ph providers w r → finished r →
  owed ph k r = 0%nat.
Proof.
  intros (_ & _ & _ & Hpend)%balanced_reachable [Hret Hgs].
  unfold owed. rewrite Hret in Hpend. by rewrite Hret, Hgs, Hpend.
Qed.

End PhaseCounts.

Lemma sum_indicator_length (P : provider.Provider → bool)
    (ps : list provider.Provider) :
  sum_list_with (λ p, if P p then 1%nat else 0%nat) ps
  = length (filter (λ p, P p = true) ps).
Proof.
  induction ps as [|p ps IH]; [done|].
  rewrite filter_cons. cbn. destruct (P p); case_decide; cbn; try done; lia.
Qed.

Lemma initial_calls_app (t1 t2 : list Event) :
  initial_calls (t1 ++ t2) = (initial_calls t1 + initial_calls t2)%nat.
Proof. unfold initial_calls. by rewrite filter_app, length_app. Qed.


(** X18. The compatibility phase likewise: never more [Initial] calls than
    there are Compatible providers, and exactly that many once every
    goroutine has finished. *)
Theorem compatible_phase_initial_count (concurrentCount : nat)
    (providers : list (string * provider.Provider)) (w : World) (r : Run) :
  reachable concurrentCount hcCompatibleProvider providers w r →
  let compatible :=
    length (filter (λ pv, bool_decide
                            (provider.Vehicle pv = provider.Compatible) = true)
              (providers.*2)) in
  (initial_calls (trace (world r)) ≤ initial_calls (trace w) + compatible)%nat
  ∧ (finished r →
     initial_calls (trace (world r))
     = (initial_calls (trace w) + compatible)%nat).
Proof.
  intros Hrun. cbn zeta. rewrite <- sum_indicator_length.
  pose proof (owed_reachable concurrentCount hcCompatibleProvider
    (λ _, 1%nat)) as Hinv.
  assert (∀ p w', initial_calls (trace (world_of
                    (announce hcCompatibleProvider p w')))
                  = initial_calls (trace w')) as Hann.
  { intros p w'. cbn [announce hcCompatibleProvider]. unfold call, modify.
    cbn [world_of with_trace trace].
    by rewrite initial_calls_app, Nat.add_0_r. }
  assert (∀ p w', initial_calls (trace (world_of
                    (task hcCompatibleProvider p w')))
                  = (initial_calls (trace w') + 1)%nat) as Htask.
  { intros p w'. cbn [task hcCompatibleProvider].
    rewrite hcCompatibleProvider_task_spec. cbn [world_of with_trace trace].
    rewrite initial_calls_app. f_equal.
    unfold hcCompatibleProvider_task_calls, initial_calls.
    by destruct (provider.Initial p). }
  specialize (Hinv Hann Htask providers w r Hrun).
  cbn [launches hcCompatibleProvider] in Hinv.
  split; [lia|]. intros Hfin.
  rewrite (owed_finished concurrentCount hcCompatibleProvider _ providers w r
             Hrun Hfin) in Hinv.
  lia.
Qed.


Lemma compatible_phase_initial_count_witness :
  (initial_calls (trace
     (with_trace
        (λ _, [Log INFO "Start initial Compatible provider %s"
                 [AStr "inline"]]) world0)) ≤ 1)%nat.
Proof.
  destruct (compatible_phase_initial_count 1 [("inline", inline_group)] world0
              _ inline_task_reachable) as [Hle _].
  exact Hle.
Defined.

(** ** Reading the configuration file *)

(** X19. [readConfig] returns data or an error, never both and never
    neither.  Data is the whole content [os.ReadFile] gave, and is never
    empty; an error is the not-exist error of [os.Stat], or the error of
    [os.ReadFile], or, for a file that reads as empty, the message naming
    the path. *)
Theorem readConfig_data_or_error
    (Stat : string → option error)
    (ReadFile : string → list Byte.byte * option error) (path : string) :
  match readConfig Stat ReadFile path with
  | (Some data, None) =>
      data ≠ [] ∧ ReadFile path = (data, None)
      ∧ IsNotExist (Stat path) = false
  | (None, Some err) =>
      IsNotExist (Stat path) = true ∧ Stat path = Some err
      ∨ IsNotExist (Stat path) = false
        ∧ (snd (ReadFile path) = Some err
           ∨ ReadFile path = ([], None)
             ∧ err = Errorf "configuration file %s is empty" [AStr path])
  | _ => False
  end.
Proof.
  unfold readConfig. cbv zeta.
  destruct (IsNotExist (Stat path)) eqn:Hstat.
  - destruct (Stat path) as [err|]; [|done]. by left.
  - destruct (ReadFile path) as [data [err|]] eqn:Hread.
    + right. split; [done|]. by left.
    + case_bool_decide as Hlen.
      * right. split; [done|]. right. by destruct data.
      * split_and!; [|done..]. by intros ->.
Qed.

(** X20. [ParseWithPath] hands [config.Parse] nothing but the non-empty
    content of the file: when the file cannot be read, or is empty, the
    result is the error of [readConfig] whatever the parser is; otherwise
    it is the parser's answer on exactly the bytes read. *)
Theorem ParseWithPath_parses_only_file_content
    (Stat : string → option error)
    (ReadFile : string → list Byte.byte * option error) (path : string) :
  match readConfig Stat ReadFile path with
  | (_, Some err) =>
      ∀ config_Parse,
        ParseWithPath Stat ReadFile config_Parse path = (None, Some err)
  | (buf, None) =>
      ∃ data, buf = Some data ∧ data ≠ [] ∧ ReadFile path = (data, None)
        ∧ ∀ config_Parse,
            ParseWithPath Stat ReadFile config_Parse path = config_Parse data
  end.
Proof.
  unfold ParseWithPath, readConfig. cbv zeta.
  destruct (IsNotExist (Stat path)) eqn:Hstat.
  - destruct (Stat path) as [err|]; done.
  - destruct (ReadFile path) as [data [err|]] eqn:Hread; [done|].
    case_bool_decide as Hlen; [done|].
    exists data. split_and!; [done| |done..]. by intros ->.
Qed.

Example readConfig_runs :
  readConfig stat0 readFile0 "config.yaml" = (Some [Byte.x6d; Byte.x3a], None)
  ∧ readConfig stat0 readFile0 "empty.yaml"
    = (None, Some (Errorf "configuration file %s is empty" [AStr "empty.yaml"]))
  ∧ readConfig stat0 readFile0 "locked.yaml"
    = (None, Some (OsError "permission denied" false))
  ∧ readConfig stat0 readFile0 "missing.yaml"
    = (None, Some (OsError "no such file or directory" true)).
Proof. repeat split. Qed.

(** ** Experimental toggles and NTP *)

Lemma updateExperimental_lookup (c : config_more.Experimental)
    (env : gmap string string) :
  updateExperimental c env !! "QUIC_GO_DISABLE_GSO"
  = (if config_more.QUICGoDisableGSO c then Some "true"
     else env !! "QUIC_GO_DISABLE_GSO")
  ∧ updateExperimental c env !! "QUIC_GO_DISABLE_ECN"
    = (if config_more.QUICGoDisableECN c then Some "true"
       else env !! "QUIC_GO_DISABLE_ECN")
  ∧ ∀ key, key ≠ "QUIC_GO_DISABLE_GSO" → key ≠ "QUIC_GO_DISABLE_ECN" →
           updateExperimental c env !! key = env !! key.
Proof.
  unfold updateExperimental, os_Setenv, FormatBool.
  destruct c as [[|] [|]]; cbn; split_and!; intros;
    rewrite ?lookup_insert; repeat case_decide; by simplify_eq.
Qed.

(** X21. The two QUIC environment switches only ever go on.  After any
    series of applies, each variable is "true" if some apply in the series
    had its flag set and is otherwise what it was before the series; an
    apply with the flag off neither clears nor changes it, and no other
    variable of the environment is touched. *)
Theorem updateExperimental_only_sets
    (cs : list config_more.Experimental) (env : gmap string string) :
  let env' := foldl (λ env c, updateExperimental c env) env cs in
  env' !! "QUIC_GO_DISABLE_GSO"
  = (if existsb config_more.QUICGoDisableGSO cs then Some "true"
     else env !! "QUIC_GO_DISABLE_GSO")
  ∧ env' !! "QUIC_GO_DISABLE_ECN"
    = (if existsb config_more.QUICGoDisableECN cs then Some "true"
       else env !! "QUIC_GO_DISABLE_ECN")
  ∧ ∀ key, key ≠ "QUIC_GO_DISABLE_GSO" → key ≠ "QUIC_GO_DISABLE_ECN" →
           env' !! key = env !! key.
Proof.
  cbv zeta. revert env.
  induction cs as [|c cs IH]; intros env; [done|].
  cbn [foldl existsb].
  destruct (IH (updateExperimental c env)) as (Hgso & Hecn & Hother).
  destruct (updateExperimental_lookup c env) as (Hgso1 & Hecn1 & Hother1).
  rewrite Hgso, Hecn, Hgso1, Hecn1. split_and!.
  - by destruct (config_more.QUICGoDisableGSO c),
       (existsb config_more.QUICGoDisableGSO cs).
  - by destruct (config_more.QUICGoDisableECN c),
       (existsb config_more.QUICGoDisableECN cs).
  - intros key Hg He. by rewrite Hother, Hother1.
Qed.

(** X22. A configuration with NTP disabled does not stop the service: after
    any series of applies the running service is the one of the last apply
    that had NTP enabled, or, if none had, the service that ran before. *)
Theorem updateNTP_keeps_last_enabled
    (JoinHostPort : string → string → string) (Itoa : Z → string)
    (cs : list config_more.NTP) (service : option NTPService) :
  foldl (λ s c, updateNTP JoinHostPort Itoa c s) service cs
  = match last (filter (λ c, config_more.Enable c = true) cs) with
    | Some c =>
        Some {| ntp_addr :=
                  JoinHostPort (config_more.Server c)
                    (Itoa (config_more.Port c));
                ntp_interval := config_more.Interval c;
                ntp_dialerProxy := config_more.DialerProxy c;
                ntp_writeToSystem := config_more.WriteToSystem c |}
    | None => service
    end.
Proof.
  induction cs as [|c cs IH] using rev_ind; [done|].
  rewrite foldl_app, filter_app, filter_cons, filter_nil. cbn [foldl].
  unfold updateNTP at 1. case_decide as Hen.
  - by rewrite Hen, last_snoc.
  - rewrite app_nil_r. destruct (config_more.Enable c); [done|]. apply IH.
Qed.

(** ** Reporting the live settings *)

Section Report.

Variable GetPorts : Ports.
Variable Authenticator_Users : option (list string).
Variable GetTunConf : config.Tun.
Variable GetTuicConf : string.
Variable tunnel_Mode : string.
Variable log_Level : string.
Variable LoaderName : string.
Variable IsSniffing : bool.

Abbreviation report w :=
  (GetGeneral GetPorts Authenticator_Users GetTunConf GetTuicConf tunnel_Mode
     log_Level LoaderName IsSniffing w).1.

(** X23. What [GetGeneral] reads back after [updateGeneral]: the IPv6
    switch and the outbound interface are the configured ones, and the
    concurrent-dial flag is on if the configuration had it on or the dialer
    had it on before; the routing mark and the unified-delay flag are
    stored by [updateGeneral] but reported as zero and off. *)
Theorem GetGeneral_after_updateGeneral (general : config.General) (w : World) :
  let w' := world_of (updateGeneral general w) in
  config.IPv6 (report w') = config.IPv6 general
  ∧ config.Interface (report w') = config.Interface general
  ∧ config.TCPConcurrent (report w')
    = config.TCPConcurrent general || tcpConcurrent (dialer w)
  ∧ DefaultRoutingMark (dialer w') = int32 (config.RoutingMark general)
  ∧ config.RoutingMark (report w') = 0
  ∧ UnifiedDelay (dialer w') = config.UnifiedDelay general
  ∧ config.UnifiedDelay (report w') = false.
Proof.
  unfold updateGeneral, GetGeneral.
  destruct (config.TCPConcurrent general) eqn:Htcp;
    destruct (bool_decide (0 < config.RoutingMark general));
    run_M; cbn; split_and!; try done; by destruct (config.IPv6 general).
Qed.

(** X24. What [GetGeneral] reads back after [updateListeners]: with [force]
    the allow-LAN flag, the auth-skip prefixes and the bind address are the
    configured ones; without it they are what they were, whatever the
    configuration says. *)
Theorem GetGeneral_after_updateListeners
    (CMFA : bool) (general : config.General) (listeners : gmap string string)
    (force : bool) (w : World) :
  let w' := world_of (updateListeners CMFA general listeners force w) in
  let shown := if force then general else report w in
  config.AllowLan (report w') = config.AllowLan shown
  ∧ config.SkipAuthPrefixes (report w') = config.SkipAuthPrefixes shown
  ∧ config.BindAddress (report w') = config.BindAddress shown
  ∧ config.IPv6 (report w') = config.IPv6 (report w)
  ∧ config.Interface (report w') = config.Interface (report w)
  ∧ config.TCPConcurrent (report w') = config.TCPConcurrent (report w).
Proof.
  unfold updateListeners, GetGeneral.
  destruct force, CMFA; run_M; cbn; done.
Qed.

End Report.

(** ** General settings, DNS, listeners and rules in the order of an apply *)

Lemma updateDNS_dialer_frame
    (c : config.DNS) (ruleProvider : list (string * provider.Provider))
    (generalIPv6 : bool) (w : World) :
  dialer (world_of (updateDNS c ruleProvider generalIPv6 w)) = dialer w.
Proof.
  destruct (config.Enable c) eqn:Hen.
  - by rewrite (updateDNS_enabled c ruleProvider generalIPv6 w Hen).
  - unfold updateDNS. rewrite Hen. by run_M.
Qed.

Lemma updateListeners_dialer_frame
    (CMFA : bool) (general : config.General) (listeners : gmap string string)
    (force : bool) (w : World) :
  dialer (world_of (updateListeners CMFA general listeners force w)) = dialer w.
Proof. unfold updateListeners. destruct force, CMFA; by run_M. Qed.

Lemma updateGeneral_mark (general : config.General) (w : World) :
  DefaultRoutingMark (dialer (world_of (updateGeneral general w)))
  = int32 (config.RoutingMark general).
Proof.
  unfold updateGeneral.
  destruct (config.TCPConcurrent general),
    (bool_decide (0 < config.RoutingMark general)); by run_M.
Qed.

Lemma updateIPTables_done_mark
    (GOOS : string) (ParseAddrPort : string → option Z)
    (SetTProxyIPTables_err : string → list string → Z → Z → option string)
    (cfg : config.Config) (w w' : World) :
  GOOS = "linux" →
  config.IPT_Enable (config.IPTables_ cfg) = true →
  updateIPTables GOOS ParseAddrPort SetTProxyIPTables_err cfg w = Done tt w' →
  DefaultRoutingMark (dialer w')
  = if bool_decide (DefaultRoutingMark (dialer w) = 0) then 2158
    else DefaultRoutingMark (dialer w).
Proof.
  intros -> Hen.
  unfold updateIPTables, updateIPTables_deferred_scope, tproxy_SetTProxyIPTables.
  rewrite Hen. rewrite bool_decide_eq_false_2 by (intros H; by apply H).
  cbn [orb negb].
  destruct (config.Tun_Enable _); [by run_M|].
  destruct (bool_decide (config.TProxyPort _ = 0)); [by run_M|].
  destruct (config.Enable _); cbn [negb]; [|by run_M].
  destruct (ParseAddrPort _) as [dnsPort|]; [|by run_M].
  destruct (SetTProxyIPTables_err _ _ _ _) as [err|].
  { run_M. by next_test. }
  run_M. destruct (bool_decide _) eqn:Hmark; run_M; by intros [= <-].
Qed.

(** X25. The routing mark through the steps of an apply.  [updateGeneral]
    stores the configured mark as an [int32]; [updateDNS] and
    [updateListeners] leave it alone; and when [updateIPTables] (Linux,
    iptables enabled) returns, the default routing mark is 2158 if that
    [int32] was zero and the configured mark otherwise. *)
Theorem routing_mark_after_apply_steps
    (CMFA : bool) (ParseAddrPort : string → option Z)
    (SetTProxyIPTables_err : string → list string → Z → Z → option string)
    (cfg : config.Config) (listeners : gmap string string) (force : bool)
    (w w' : World) :
  config.IPT_Enable (config.IPTables_ cfg) = true →
  updateIPTables "linux" ParseAddrPort SetTProxyIPTables_err cfg
    (world_of (updateListeners CMFA (config.General_ cfg) listeners force
       (world_of (updateDNS (config.DNS_ cfg) (config.RuleProviders cfg)
          (config.IPv6 (config.General_ cfg))
          (world_of (updateGeneral (config.General_ cfg) w))))))
  = Done tt w' →
  DefaultRoutingMark (dialer w')
  = if bool_decide (int32 (config.RoutingMark (config.General_ cfg)) = 0)
    then 2158
    else int32 (config.RoutingMark (config.General_ cfg)).
Proof.
  intros Hen Hdone.
  rewrite (updateIPTables_done_mark _ _ _ _ _ _ eq_refl Hen Hdone).
  by rewrite updateListeners_dialer_frame, updateDNS_dialer_frame,
    updateGeneral_mark.
Qed.

Lemma routing_mark_after_apply_steps_witness :
  config.IPT_Enable
    (config.IPTables_ (config0 false 7893 true "0.0.0.0:1053")) = true
  ∧ DefaultRoutingMark (dialer (world_of
      (updateIPTables "linux" parse0 install_ok
         (config0 false 7893 true "0.0.0.0:1053")
         (world_of (updateListeners false
            (config.General_ (config0 false 7893 true "0.0.0.0:1053")) ∅ true
            (world_of (updateDNS
               (config.DNS_ (config0 false 7893 true "0.0.0.0:1053")) [] true
               (world_of (updateGeneral
                  (config.General_ (config0 false 7893 true "0.0.0.0:1053"))
                  world0))))))))) = 2158.
Proof.
  split; [reflexivity|].
  rewrite (routing_mark_after_apply_steps false parse0 install_ok
             (config0 false 7893 true "0.0.0.0:1053") ∅ true world0 _
             eq_refl);
    [|vm_compute; reflexivity].
  vm_compute. reflexivity.
Defined.

(** ** The apply sequence *)

Lemma journals_pcall (c : Call) : journals false (λ j, j = [c]) (pcall c).
Proof.
  intros s. eexists. split; [reflexivity|]. cbn. split_and!; [done..|]. eauto.
Qed.

Lemma journals_ret : journals false (λ j, j = []) (mret tt).
Proof.
  intros s. exists s. split_and!; [done..|]. exists []. by rewrite app_nil_r.
Qed.

Lemma journals_lift (exits : bool) (T : list Event → Prop) (m : M unit) :
  (∀ w, ∃ w' t, m w = (if exits then Exited 2 w' else Done tt w')
                ∧ trace w' = trace w ++ t ∧ T t) →
  journals exits (λ j, ∃ t, j = Executor <$> t ∧ T t) (lift m).
Proof.
  intros Hm s. destruct (Hm (proc_world s)) as (w' & t & Hw' & Ht & HT).
  exists (journalled (proc_world s) w' s). unfold lift. rewrite Hw'.
  split; [by destruct exits|]. cbn. split_and!; [done..|].
  exists (Executor <$> t). rewrite Ht, drop_app_length. eauto.
Qed.

Lemma journals_bind (exits : bool) (R1 R2 : list Call → Prop) (m k : P unit) :
  journals false R1 m → journals exits R2 k →
  journals exits (λ j, ∃ j1 j2, j = j1 ++ j2 ∧ R1 j1 ∧ R2 j2) (m;; k).
Proof.
  intros Hm Hk s.
  destruct (Hm s) as (s1 & Hs1 & Hmux1 & Henv1 & j1 & Hj1 & HR1).
  destruct (Hk s1) as (s2 & Hs2 & Hmux2 & Henv2 & j2 & Hj2 & HR2).
  exists s2. unfold mbind, P_bind. rewrite Hs1.
  split_and!; [done|congruence|congruence|].
  exists (j1 ++ j2). rewrite Hj2, Hj1, (assoc_L (++)). eauto 10.
Qed.

Lemma journals_exit_bind (R : list Call → Prop) (m k : P unit) :
  journals true R m → journals true R (m;; k).
Proof.
  intros Hm s. destruct (Hm s) as (s1 & Hs1 & Hrest).
  exists s1. unfold mbind, P_bind. by rewrite Hs1.
Qed.

Lemma journals_weaken (exits : bool) (R R' : list Call → Prop) (m : P unit) :
  (∀ j, R j → R' j) → journals exits R m → journals exits R' m.
Proof.
  intros HR Hm s. destruct (Hm s) as (s1 & Hs1 & ? & ? & j & ? & ?).
  exists s1. split_and!; [done..|]. eauto.
Qed.

Lemma calm_executor (t : list Event) : calm (Executor <$> t).
Proof. apply Forall_fmap, Forall_true. done. Qed.

Lemma calm_bind (m k : P unit) :
  journals false calm m → journals false calm k → journals false calm (m;; k).
Proof.
  intros Hm Hk. eapply journals_weaken; [|by apply journals_bind].
  intros j (j1 & j2 & -> & H1 & H2). by apply Forall_app.
Qed.

Lemma calm_pcall (c : Call) :
  after_iptables c = false → journals false calm (pcall c).
Proof.
  intros Hc. eapply journals_weaken; [|apply journals_pcall].
  intros j ->. by repeat constructor.
Qed.

Lemma calm_log (lvl : Level) (format : string) (args : list LogArg) :
  journals false calm (lift (call (Log lvl format args))).
Proof.
  eapply journals_weaken; [|apply (journals_lift false (λ _, True))].
  - intros j (t & -> & _). apply calm_executor.
  - intros w. by eexists _, _.
Qed.

Lemma calm_ret : journals false calm (mret tt).
Proof.
  eapply journals_weaken; [|apply journals_ret]. intros j ->. constructor.
Qed.

Lemma lift_log (lvl : Level) (format : string) (args : list LogArg) (s : Proc) :
  lift (call (Log lvl format args)) s
  = PDone tt
      {| proc_world :=
           with_trace (λ t, t ++ [Log lvl format args]) (proc_world s);
         journal := journal s ++ [Executor (Log lvl format args)];
         mux_held := mux_held s; environ := environ s;
         ntp_service := ntp_service s |}.
Proof.
  unfold lift, call, modify, journalled. cbn.
  by rewrite drop_app_length.
Qed.

(** X26. The certificate loop of [ApplyConfig] tries every configured
    certificate, in order, whatever happened to the ones before: a
    certificate that fails is logged with its error and the loop goes on;
    the loop always returns, and besides these calls and warnings it
    changes nothing. *)
Theorem addCertificates_tries_every_certificate
    (AddCertificate_err : string → option string) (certs : list string)
    (s : Proc) :
  ∃ s', addCertificates AddCertificate_err certs s = PDone tt s'
    ∧ journal s' = journal s ++ certificate_calls AddCertificate_err certs
    ∧ filter (λ c, is_add_certificate c = true) (journal s')
      = filter (λ c, is_add_certificate c = true) (journal s)
        ++ ((λ c, AddCertificate c (AddCertificate_err c)) <$> certs)
    ∧ mux_held s' = mux_held s ∧ environ s' = environ s
    ∧ ntp_service s' = ntp_service s
    ∧ resolver (proc_world s') = resolver (proc_world s)
    ∧ listener (proc_world s') = listener (proc_world s)
    ∧ dialer (proc_world s') = dialer (proc_world s)
    ∧ selection (proc_world s') = selection (proc_world s).
Proof.
  revert s. induction certs as [|c certs IH]; intros s.
  - exists s. cbn. rewrite !app_nil_r. by split_and!.
  - cbn [addCertificates]. unfold mbind at 1 2, P_bind at 1 2.
    cbn [pcall journal]. unfold certificate_calls. cbn [mbind list_bind].
    fold (certificate_calls AddCertificate_err certs).
    destruct (AddCertificate_err c) as [err|] eqn:Herr.
    + rewrite lift_log. cbn [proc_world journal mux_held environ ntp_service].
      match goal with |- ∃ s', addCertificates _ _ ?s1 = _ ∧ _ =>
        destruct (IH s1) as (s' & -> & Hj & Hf & ? & ? & ? & ? & ? & ? & ?)
      end.
      exists s'. cbn in *. rewrite Hf, Hj, Herr.
      rewrite <- !(assoc_L (++)), !filter_app. cbn.
      rewrite <- !(assoc_L (++)). by split_and!.
    + unfold mret at 1, P_ret at 1.
      match goal with |- ∃ s', addCertificates _ _ ?s1 = _ ∧ _ =>
        destruct (IH s1) as (s' & -> & Hj & Hf & ? & ? & ? & ? & ? & ? & ?)
      end.
      exists s'. cbn in *. rewrite Hf, Hj, Herr.
      rewrite <- !(assoc_L (++)), !filter_app. cbn.
      rewrite <- !(assoc_L (++)). by split_and!.
Qed.

Example addCertificates_run :
  journal (proc_of (addCertificates addcert0 ["bad-pem"; "good-pem"] proc0))
  = [ AddCertificate "bad-pem" (Some "x509: malformed certificate");
      Executor (Log WARNING "%s\nadd error: %s"
                  [AStr "bad-pem"; AStr "x509: malformed certificate"]);
      AddCertificate "good-pem" None ].
Proof. reflexivity. Qed.

Lemma updateGeneral_returns (general : config.General) (w : World) :
  ∃ w' t, updateGeneral general w = Done tt w'
          ∧ trace w' = trace w ++ t ∧ True.
Proof.
  unfold updateGeneral.
  destruct (config.TCPConcurrent general),
    (bool_decide (0 < config.RoutingMark general)); run_M;
    rewrite <- !(assoc_L (++)); by eexists _, _.
Qed.

Lemma updateDNS_returns
    (c : config.DNS) (ruleProvider : list (string * provider.Provider))
    (generalIPv6 : bool) (w : World) :
  ∃ w' t, updateDNS c ruleProvider generalIPv6 w = Done tt w'
          ∧ trace w' = trace w ++ t
          ∧ ∃ r m, t = [ReCreateServer
                          (if config.Enable c then config.Listen c else "") r m].
Proof.
  destruct (config.Enable c) eqn:Hen.
  - rewrite (updateDNS_enabled c ruleProvider generalIPv6 w Hen).
    eexists _, _. split; [done|]. cbn. eauto.
  - unfold updateDNS. rewrite Hen. run_M. eexists _, _.
    split; [done|]. eauto.
Qed.

Lemma updateListeners_returns
    (CMFA : bool) (general : config.General) (listeners : gmap string string)
    (force : bool) (w : World) :
  ∃ w' t, updateListeners CMFA general listeners force w = Done tt w'
          ∧ trace w' = trace w ++ t
          ∧ PatchInboundListeners listeners true ∈ t.
Proof.
  unfold updateListeners. destruct force, CMFA; run_M;
    rewrite <- ?(assoc_L (++)); eexists _, _;
    (split; [done|]); (split; [done|]); apply list_elem_of_here.
Qed.

Lemma updateIPTables_exits_on_fatal
    (ParseAddrPort : string → option Z)
    (SetTProxyIPTables_err : string → list string → Z → Z → option string)
    (cfg : config.Config) (w : World) :
  config.IPT_Enable (config.IPTables_ cfg) = true →
  iptables_fatal ParseAddrPort SetTProxyIPTables_err cfg →
  ∃ w' t,
    updateIPTables "linux" ParseAddrPort SetTProxyIPTables_err cfg w
    = Exited 2 w'
    ∧ trace w' = trace w ++ t
    ∧ CleanupTProxyIPTables ∈ t.
Proof.
  intros Hen Hfatal.
  unfold updateIPTables, updateIPTables_deferred_scope, tproxy_SetTProxyIPTables.
  rewrite Hen. rewrite bool_decide_eq_false_2 by (intros H; by apply H).
  cbn [orb negb]. fold (iptables_ifname cfg).
  destruct (config.Tun_Enable _) eqn:Htun.
  { run_M. rewrite <- ?(assoc_L (++)). eexists _, _.
    split_and!; [done..|]. apply list_elem_of_here. }
  destruct (bool_decide (config.TProxyPort _ = 0)) eqn:Hport.
  { run_M. rewrite <- ?(assoc_L (++)). eexists _, _.
    split_and!; [done..|]. apply list_elem_of_here. }
  destruct (config.Enable _) eqn:Hdns; cbn [negb].
  2:{ run_M. rewrite <- ?(assoc_L (++)). eexists _, _.
      split_and!; [done..|]. apply list_elem_of_here. }
  destruct (ParseAddrPort _) as [dnsPort|] eqn:Hparse.
  2:{ run_M. rewrite <- ?(assoc_L (++)). eexists _, _.
      split_and!; [done..|]. apply list_elem_of_here. }
  destruct (SetTProxyIPTables_err _ _ _ _) as [err|] eqn:Herr.
  { run_M. next_test; run_M; rewrite <- ?(assoc_L (++)); eexists _, _;
      (split_and!; [done..|]); apply list_elem_of_here. }
  exfalso. apply bool_decide_eq_false in Hport.
  destruct Hfatal as [?|[?|[?|[?|(p & e & Hp & He)]]]]; congruence.
Qed.

Section ApplySteps.

Variable CMFA : bool.
Variable ParseAddrPort : string → option Z.
Variable SetTProxyIPTables_err : string → list string → Z → Z → option string.
Variable JoinHostPort : string → string → string.
Variable Itoa : Z → string.
Variable AddCertificate_err : string → option string.
Variable NewAuthenticator : list (string * string) → option (list (string * string)).
Variable NewSnifferDispatcher :
  string → string → string → bool → bool → option string * option string.
Variable NewCloseSnifferDispatcher : option string * option string.

Lemma calm_addCertificates (certs : list string) :
  journals false calm (addCertificates AddCertificate_err certs).
Proof.
  induction certs as [|c certs IH]; [apply calm_ret|].
  cbn [addCertificates]. apply calm_bind; [by apply calm_pcall|].
  apply calm_bind; [|done].
  destruct (AddCertificate_err c); [apply calm_log | apply calm_ret].
Qed.

Lemma calm_updateUsers (users : list (string * string)) :
  journals false calm (updateUsers NewAuthenticator users).
Proof.
  unfold updateUsers. apply calm_bind; [by apply calm_pcall|].
  unfold pwhen. case_bool_decide; [apply calm_log | apply calm_ret].
Qed.

Lemma calm_updateSniffer (sniffer : config_rest.Sniffer) :
  journals false calm
    (updateSniffer NewSnifferDispatcher NewCloseSnifferDispatcher sniffer).
Proof.
  unfold updateSniffer. destruct (config_rest.Enable sniffer).
  - destruct (NewSnifferDispatcher _ _ _ _ _) as [dispatcher [err|]];
      (apply calm_bind; [apply calm_log || apply calm_ret|]);
      (apply calm_bind; [by apply calm_pcall | apply calm_log]).
  - destruct NewCloseSnifferDispatcher as [dispatcher [err|]];
      (apply calm_bind; [apply calm_log || apply calm_ret|]);
      (apply calm_bind; [by apply calm_pcall | apply calm_log]).
Qed.

Lemma calm_updateNTP_step (c : config_more.NTP) :
  journals false calm (updateNTP_step JoinHostPort Itoa c).
Proof.
  intros s. unfold updateNTP_step, updateNTP.
  destruct (config_more.Enable c); eexists; (split; [reflexivity|]); cbn;
    (split_and!; [done..|]).
  - eexists. split; [done|]. by repeat constructor.
  - exists []. rewrite app_nil_r. split; [done|]. constructor.
Qed.

(** X27. A fatal privileged-rule failure stops the apply in the middle.
    On Linux with iptables enabled, under any of the fatal conditions,
    [ApplyConfig] ends the process with status 2 at [updateIPTables]: by
    then the listeners have been patched, the DNS server recreated and the
    old rules cleaned up, but the tun device, the environment toggles, the
    tunnels and the inner listener are never reached, the dispatch engine
    is never told to load or run again, and [mux] is still held. *)
Theorem ApplyConfig_fatal_exit_midway
    (cfg : config.Config) (rest : config_rest.Rest) (force : bool) (s : Proc) :
  config.IPT_Enable (config.IPTables_ cfg) = true →
  iptables_fatal ParseAddrPort SetTProxyIPTables_err cfg →
  ∃ s' j,
    ApplyConfig_until_providers CMFA "linux" ParseAddrPort
      SetTProxyIPTables_err JoinHostPort Itoa AddCertificate_err
      NewAuthenticator NewSnifferDispatcher NewCloseSnifferDispatcher
      cfg rest force s = PExited 2 s'
    ∧ journal s' = journal s ++ mux_Lock :: OnSuspend :: j
    ∧ mux_held s' = true
    ∧ environ s' = environ s
    ∧ Forall (λ c, after_iptables c = false) j
    ∧ Executor (PatchInboundListeners (config_rest.Listeners rest) true) ∈ j
    ∧ (∃ r m, Executor (ReCreateServer
                (if config.Enable (config.DNS_ cfg)
                 then config.Listen (config.DNS_ cfg) else "") r m) ∈ j)
    ∧ Executor CleanupTProxyIPTables ∈ j.
Proof.
  intros Hen Hfatal. unfold ApplyConfig_until_providers.
  unfold mbind at 1 2, P_bind at 1 2. cbn [mux_lock pcall journal mux_held
    proc_world environ ntp_service].
  match goal with |- ∃ s' j, ?prog ?s1 = _ ∧ _ =>
    assert (journals true
      (λ j, calm j
            ∧ Executor (PatchInboundListeners (config_rest.Listeners rest) true) ∈ j
            ∧ (∃ r m, Executor (ReCreateServer
                 (if config.Enable (config.DNS_ cfg)
                  then config.Listen (config.DNS_ cfg) else "") r m) ∈ j)
            ∧ Executor CleanupTProxyIPTables ∈ j) prog) as Hrun;
    [|destruct (Hrun s1) as (s' & Hs' & Hmux & Henv & j & Hj & Hcalm & H1 & H2 & H3)]
  end.
  2:{ exists s', j. cbn in *. rewrite <- !(assoc_L (++)) in Hj.
      by split_and!. }
  eapply journals_weaken;
    [|apply journals_bind; [by apply calm_pcall|];
      apply journals_bind; [apply calm_addCertificates|];
      apply journals_bind; [apply calm_updateUsers|];
      apply journals_bind; [by apply calm_pcall|];
      apply journals_bind; [by apply calm_pcall|];
      apply journals_bind; [apply calm_updateSniffer|];
      apply journals_bind; [by apply calm_pcall|];
      apply journals_bind;
        [apply (journals_lift false), updateGeneral_returns|];
      apply journals_bind; [apply calm_updateNTP_step|];
      apply journals_bind; [apply (journals_lift false), updateDNS_returns|];
      apply journals_bind;
        [apply (journals_lift false), updateListeners_returns|];
      apply journals_exit_bind, (journals_lift true);
      intros w; by apply updateIPTables_exits_on_fatal].
  cbn beta.
  intros j (j1 & ? & -> & C1 & j2 & ? & -> & C2 & j3 & ? & -> & C3 & j4 & ?
            & -> & C4 & j5 & ? & -> & C5 & j6 & ? & -> & C6 & j7 & ? & -> & C7
            & j8 & ? & -> & (t8 & -> & _) & j9 & ? & -> & C9 & j10 & ? & ->
            & (t10 & -> & r & m & ->) & j11 & ? & -> & (t11 & -> & Hpatch)
            & t12 & -> & Hclean).
  split_and!.
  - unfold calm in *. rewrite !Forall_app.
    split_and!; try done; apply calm_executor.
  - rewrite !elem_of_app. do 10 right. left.
    by apply list_elem_of_fmap_2.
  - exists r, m. rewrite !elem_of_app. do 9 right. left.
    apply list_elem_of_fmap_2, list_elem_of_here.
  - rewrite !elem_of_app. do 11 right.
    by apply list_elem_of_fmap_2.
Qed.

End ApplySteps.

Lemma ApplyConfig_fatal_exit_midway_witness :
  config.IPT_Enable
    (config.IPTables_ (config0 true 7893 true "0.0.0.0:1053")) = true
  ∧ iptables_fatal parse0 install_ok (config0 true 7893 true "0.0.0.0:1053")
  ∧ ∃ s' j,
      ApplyConfig_until_providers false "linux" parse0 install_ok join0 itoa0
        addcert0 newauth0 sniffer0 (Some "closed", None)
        (config0 true 7893 true "0.0.0.0:1053") rest0 true proc0
      = PExited 2 s'
      ∧ journal s' = journal proc0 ++ mux_Lock :: OnSuspend :: j
      ∧ mux_held s' = true
      ∧ Forall (λ c, after_iptables c = false) j.
Proof.
  split; [reflexivity|]. split; [by left|].
  destruct (ApplyConfig_fatal_exit_midway false parse0 install_ok join0 itoa0
              addcert0 newauth0 sniffer0 (Some "closed", None)
              (config0 true 7893 true "0.0.0.0:1053") rest0 true proc0
              eq_refl (or_introl eq_refl))
    as (s' & j & Hrun & Hj & Hmux & _ & Hcalm & _).
  exists s', j. exact (conj Hrun (conj Hj (conj Hmux Hcalm))).
Defined.

(** The same apply when nothing is fatal: it goes on to the tun device,
    the environment, the tunnels and the inner listener, still holding
    [mux]. *)
Example ApplyConfig_reaches_inner :
  let s := proc_of
    (ApplyConfig_until_providers false "linux" parse0 install_ok join0 itoa0
       addcert0 newauth0 sniffer0 (Some "closed", None)
       (config0 false 7893 true "0.0.0.0:1053") rest0 false proc0) in
  drop 20 (journal s)
  = [ Executor CleanupTProxyIPTables;
      Executor (SetTProxyIPTables "lo" ["10.0.0.0/8"] 7893 1053 None);
      Executor (Log INFO "[IPTABLES] Setting iptables completed" []);
      ReCreateTun {| config.Tun_Enable := false; config.RedirectToTun := [] |};
      ReCreateRedirToTun [];
      Setenv "QUIC_GO_DISABLE_GSO" "true";
      PatchTunnel [];
      OnInnerLoading;
      inner_New ]
  ∧ mux_held s = true
  ∧ environ s !! "QUIC_GO_DISABLE_GSO" = Some "true".
Proof. vm_compute. by split_and!. Qed.
